(** * new-network-namespace: a shallow embedding of the launcher

    The program parses its command line, unshares the user, mount and
    network namespaces, maps the caller to root inside the new user
    namespace and finally execs the command.  Every system or libc call is
    answered by a [Kernel] oracle; the process state (errno, the debug
    flag, getopt's cursor, what was printed on standard error and the
    calls issued so far) is threaded through a small state monad whose
    outcomes also cover [exit] and a successful [execvp].

    Conventions of the model.  [argv] is the list of the tokens before the
    terminating null pointer, so [argc] is its length.  A call that fails
    sets errno and hands back -1 (a null stream for [fopen]); a call that
    succeeds leaves errno alone.  A stream is named by the file it writes.
    The oracle answers by call and arguments; the program issues each of
    its calls at most once per run, so nothing is lost by that. *)

From Stdlib Require Import ZArith List String Ascii Bool Lia.
From Stdlib Require Import DecimalString.
Import ListNotations.

Local Open Scope string_scope.
Local Open Scope Z_scope.

(** ** Characters and strings the C source spells with escapes *)

Definition nl : string := String "010"%char EmptyString.
Definition dq : string := String "034"%char EmptyString.
Definition bs : string := String "092"%char EmptyString.

(** ** libc formatting: the conversions the source uses (%d, %s, %c) *)

Inductive Arg : Type :=
| ArgInt (z : Z)
| ArgStr (s : string)
| ArgChar (c : ascii).

Definition show_int (z : Z) : string := NilZero.string_of_int (Z.to_int z).

Definition show_arg (conv : ascii) (a : Arg) : option string :=
  match a with
  | ArgInt z => if Ascii.eqb conv "d" then Some (show_int z) else None
  | ArgStr s => if Ascii.eqb conv "s" then Some s else None
  | ArgChar c => if Ascii.eqb conv "c" then Some (String c EmptyString) else None
  end.

Fixpoint format (fmt : string) (args : list Arg) : string :=
  match fmt with
  | EmptyString => EmptyString
  | String c rest =>
      if Ascii.eqb c "%" then
        match rest with
        | String conv rest' =>
            match args with
            | a :: args' =>
                match show_arg conv a with
                | Some out => out ++ format rest' args'
                | None => String c (String conv (format rest' args))
                end
            | [] => String c (String conv (format rest' args))
            end
        | EmptyString => String c EmptyString
        end
      else String c (format rest args)
  end.

(** ** Integer conversions *)

(** [int uid = getuid()]: a 32-bit unsigned id stored in a signed int. *)
Definition int_of_uid (u : Z) : Z :=
  let m := u mod 2 ^ 32 in
  if m <? 2 ^ 31 then m else m - 2 ^ 32.

(** The status a parent observes after [exit(code)]: the low eight bits. *)
Definition exit_status (code : Z) : Z := Z.land code 255.

(** ** Constants of the Linux headers *)

Definition CLONE_NEWNS : Z := 0x00020000.
Definition CLONE_NEWUSER : Z := 0x10000000.
Definition CLONE_NEWNET : Z := 0x40000000.

Definition EPERM : Z := 1.
Definition ENOENT : Z := 2.
Definition ENOEXEC : Z := 8.
Definition ENOMEM : Z := 12.
Definition EACCES : Z := 13.
Definition EINVAL : Z := 22.
Definition ENOSPC : Z := 28.

(** [strerror] as glibc words it for the codes above; the other codes,
    for which glibc has texts of its own, are spelled by number here. *)
Definition strerror (e : Z) : string :=
  if e =? 0 then "Success"
  else if e =? EPERM then "Operation not permitted"
  else if e =? ENOENT then "No such file or directory"
  else if e =? ENOEXEC then "Exec format error"
  else if e =? ENOMEM then "Cannot allocate memory"
  else if e =? EACCES then "Permission denied"
  else if e =? EINVAL then "Invalid argument"
  else if e =? ENOSPC then "No space left on device"
  else "Unknown error " ++ show_int e.

(** ** The operating system as an oracle *)

(** What a call reports: success, or failure with the errno it sets. *)
Inductive result : Type :=
| Ok
| Err (e : Z).

Record Kernel : Type := {
  k_getuid : Z;
  k_getgid : Z;
  k_unshare : Z -> result;
  k_fopen : string -> result;
  k_vfprintf : string -> string -> result;
  k_fclose : string -> result;
  k_setresuid : Z -> Z -> Z -> result;
  k_setresgid : Z -> Z -> Z -> result;
  k_execvp : string -> list string -> result
}.

(** The calls that leave the process, in the order they are issued. *)
Inductive Event : Type :=
| EvGetuid (u : Z)
| EvGetgid (g : Z)
| EvUnshare (flags : Z) (r : result)
| EvFopen (file : string) (r : result)
| EvVfprintf (file text : string) (r : result)
| EvFclose (file : string) (r : result)
| EvSetresuid (ruid euid suid : Z) (r : result)
| EvSetresgid (rgid egid sgid : Z) (r : result)
| EvExecvp (file : string) (argv : list string) (r : result).

(** ** Process state *)

Record State : Type := {
  errno : Z;
  global_debug : bool;
  optind : nat;
  optopt : ascii;
  nextchar : string;
  stderr : string;
  trace : list Event
}.

Definition initial_state : State :=
  {| errno := 0; global_debug := false; optind := 1%nat; optopt := "?"%char;
     nextchar := EmptyString; stderr := EmptyString; trace := [] |}.

Definition set_errno (e : Z) (s : State) : State :=
  {| errno := e; global_debug := global_debug s; optind := optind s;
     optopt := optopt s; nextchar := nextchar s; stderr := stderr s;
     trace := trace s |}.

Definition set_debug (b : bool) (s : State) : State :=
  {| errno := errno s; global_debug := b; optind := optind s;
     optopt := optopt s; nextchar := nextchar s; stderr := stderr s;
     trace := trace s |}.

Definition set_cursor (i : nat) (rest : string) (s : State) : State :=
  {| errno := errno s; global_debug := global_debug s; optind := i;
     optopt := optopt s; nextchar := rest; stderr := stderr s;
     trace := trace s |}.

Definition set_optopt (c : ascii) (s : State) : State :=
  {| errno := errno s; global_debug := global_debug s; optind := optind s;
     optopt := c; nextchar := nextchar s; stderr := stderr s;
     trace := trace s |}.

Definition print_err (text : string) (s : State) : State :=
  {| errno := errno s; global_debug := global_debug s; optind := optind s;
     optopt := optopt s; nextchar := nextchar s; stderr := stderr s ++ text;
     trace := trace s |}.

Definition record (ev : Event) (s : State) : State :=
  {| errno := errno s; global_debug := global_debug s; optind := optind s;
     optopt := optopt s; nextchar := nextchar s; stderr := stderr s;
     trace := trace s ++ [ev] |}.

(** A call that failed sets errno; one that succeeded leaves it alone. *)
Definition settle (r : result) (s : State) : State :=
  match r with
  | Ok => s
  | Err e => set_errno e s
  end.

(** ** The monad of the process *)

Inductive outcome (A : Type) : Type :=
| Returned (a : A)
| Exited (status : Z)
| Replaced (file : string) (argv : list string)
| Crashed
| OutOfFuel.

Arguments Returned {A} a.
Arguments Exited {A} status.
Arguments Replaced {A} file argv.
Arguments Crashed {A}.
Arguments OutOfFuel {A}.

Definition M (A : Type) : Type := State -> outcome A * State.

Definition ret {A : Type} (a : A) : M A := fun s => (Returned a, s).

Definition bind {A B : Type} (m : M A) (f : A -> M B) : M B :=
  fun s =>
    match m s with
    | (Returned a, s') => f a s'
    | (Exited st, s') => (Exited st, s')
    | (Replaced file argv, s') => (Replaced file argv, s')
    | (Crashed, s') => (Crashed, s')
    | (OutOfFuel, s') => (OutOfFuel, s')
    end.

Notation "x <- m ;; k" := (bind m (fun x => k))
  (at level 61, m at next level, right associativity).
Notation "m ;; k" := (bind m (fun _ => k))
  (at level 61, right associativity).

Definition get {A : Type} (proj : State -> A) : M A :=
  fun s => (Returned (proj s), s).

Definition modify (f : State -> State) : M unit :=
  fun s => (Returned tt, f s).

(** ** libc and system calls *)

Definition exit {A : Type} (code : Z) : M A :=
  fun s => (Exited (exit_status code), s).

Definition fprintf_stderr (fmt : string) (args : list Arg) : M unit :=
  modify (print_err (format fmt args)).

Definition perror (msg : string) : M unit :=
  e <- get errno ;;
  modify (print_err (msg ++ ": " ++ strerror e ++ nl)).

(** The value an int-returning call hands back: 0, or -1 with errno set. *)
Definition status_of (r : result) : Z :=
  match r with
  | Ok => 0
  | Err _ => -1
  end.

Definition syscall (ev : result -> Event) (r : result) : M Z :=
  fun s => (Returned (status_of r), record (ev r) (settle r s)).

Section Calls.

Variable k : Kernel.

Definition getuid : M Z :=
  fun s => (Returned (k_getuid k), record (EvGetuid (k_getuid k)) s).

Definition getgid : M Z :=
  fun s => (Returned (k_getgid k), record (EvGetgid (k_getgid k)) s).

Definition unshare (flags : Z) : M Z :=
  syscall (EvUnshare flags) (k_unshare k flags).

(** [fopen(filename, "w")]: the stream is identified by the file it
    writes; [None] is the NULL pointer. *)
Definition fopen (filename : string) : M (option string) :=
  fun s =>
    let r := k_fopen k filename in
    (Returned (match r with Ok => Some filename | Err _ => None end),
     record (EvFopen filename r) (settle r s)).

(** [vfprintf] returns the number of characters written, or -1. *)
Definition vfprintf (stream : string) (fmt : string) (args : list Arg) : M Z :=
  fun s =>
    let text := format fmt args in
    let r := k_vfprintf k stream text in
    (Returned (match r with
               | Ok => Z.of_nat (String.length text)
               | Err _ => -1
               end),
     record (EvVfprintf stream text r) (settle r s)).

Definition fclose (stream : string) : M Z :=
  syscall (EvFclose stream) (k_fclose k stream).

Definition setresuid (r e s : Z) : M Z :=
  syscall (EvSetresuid r e s) (k_setresuid k r e s).

Definition setresgid (r e s : Z) : M Z :=
  syscall (EvSetresgid r e s) (k_setresgid k r e s).

(** [execvp] comes back only to report failure. *)
Definition execvp (file : string) (argv : list string) : M Z :=
  fun s =>
    let r := k_execvp k file argv in
    let s' := record (EvExecvp file argv r) (settle r s) in
    match r with
    | Ok => (Replaced file argv, s')
    | Err _ => (Returned (-1), s')
    end.

End Calls.

(** ** The macros of the source *)

(** [PRINT_DEBUG(...)]: printed only when the debug flag is set, behind
    the fixed prefix. *)
Definition PRINT_DEBUG (fmt : string) (args : list Arg) : M unit :=
  dbg <- get global_debug ;;
  if dbg then fprintf_stderr ("sandbox.c: " ++ fmt) args else ret tt.

(** [CHECK_CALL(x)]: [name] is the text of [x] as the preprocessor
    stringifies it. *)
Definition CHECK_CALL (name : string) (x : M Z) : M unit :=
  r <- x ;;
  if r =? -1 then (perror name ;; exit 1) else ret tt.

(** ** getopt(3) for the option string "+:D"

    The leading [+] stops the scan at the first non-option, the [:] after
    it silences getopt's own messages, and [D] takes no argument; so every
    other option character is reported as ['?'] with [optopt] set.
    [optopt] is followed only there, where the program reads it; on its
    other calls glibc resets it, which the program never sees. *)

Definition char_code (c : ascii) : Z := Z.of_N (N_of_ascii c).

Definition take_option (c : ascii) (rest : string) : M Z :=
  fun s =>
    let i := match rest with
             | EmptyString => S (optind s)
             | String _ _ => optind s
             end in
    let s' := set_cursor i rest s in
    if Ascii.eqb c "D" then (Returned (char_code "D"), s')
    else (Returned (char_code "?"), set_optopt c s').

Definition getopt (argv : list string) : M Z :=
  fun s =>
    match nextchar s with
    | String c rest => take_option c rest s
    | EmptyString =>
        match nth_error argv (optind s) with
        | None => (Returned (-1), s)
        | Some arg =>
            if String.eqb arg "--" then
              (Returned (-1), set_cursor (S (optind s)) EmptyString s)
            else
              match arg with
              | String dash (String c rest) =>
                  if Ascii.eqb dash "-" then take_option c rest s
                  else (Returned (-1), s)
              | _ => (Returned (-1), s)
              end
        end
    end.

(** ** Options parsing result *)

Record Options : Type := {
  args : list string
}.

(** [argv[0]] handed to [%s]; glibc prints a null pointer as (null). *)
Definition argv0 (argv : list string) : string :=
  match argv with
  | [] => "(null)"
  | a :: _ => a
  end.

Fixpoint print_provided (argv : list string) : M unit :=
  match argv with
  | [] => ret tt
  | a :: rest => fprintf_stderr " %s" [ArgStr a] ;; print_provided rest
  end.

Definition Usage (argv : list string) (fmt : string) (va : list Arg) : M unit :=
  fprintf_stderr fmt va ;;
  fprintf_stderr
    (nl ++ "Create a new empty network namespace(plus user namespace) for testing"
        ++ nl ++ "Usage: %s [-C|--] command arg1" ++ nl)
    [ArgStr (argv0 argv)] ;;
  fprintf_stderr "  provided:" [] ;;
  print_provided argv ;;
  fprintf_stderr
    (nl ++ "Mandatory arguments:" ++ nl
        ++ "  [--] command to run inside sandbox, followed by arguments" ++ nl
        ++ nl
        ++ "Optional arguments:" ++ nl
        ++ "  -D if set, debug info will be printed" ++ nl)
    [] ;;
  exit 1.

(** The body of the [while] loop: the [switch] on getopt's answer. *)
Definition handle_option (argv : list string) (c : Z) : M unit :=
  if c =? char_code "D" then modify (set_debug true)
  else if c =? char_code "?" then
    oo <- get optopt ;;
    oi <- get optind ;;
    Usage argv "Unrecognized argument: -%c (%d)" [ArgChar oo; ArgInt (Z.of_nat oi)]
  else if c =? char_code ":" then
    oo <- get optopt ;;
    Usage argv "Flag -%c requires an argument" [ArgChar oo]
  else ret tt.

Fixpoint getopt_loop (fuel : nat) (argv : list string) : M unit :=
  match fuel with
  | O => fun s => (OutOfFuel, s)
  | S fuel' =>
      c <- getopt argv ;;
      if c =? -1 then ret tt
      else (handle_option argv c ;; getopt_loop fuel' argv)
  end.

(** Every call of getopt that does not end the scan consumes a character
    of [argv]; one more than their number is fuel enough. *)
Fixpoint total_length (l : list string) : nat :=
  match l with
  | [] => 0
  | a :: rest => String.length a + total_length rest
  end.

Definition ParseCommandLine (argv : list string) : M Options :=
  getopt_loop (S (total_length argv)) argv ;;
  oi <- get optind ;;
  let opt := {| args := skipn oi argv |} in
  (if (List.length argv <=? oi)%nat
   then Usage argv "No command specified" []
   else ret tt) ;;
  ret opt.

Section Program.

Variable k : Kernel.

(** ** WriteFile *)

Definition WriteFile (filename : string) (fmt : string) (va : list Arg) : M Z :=
  stream <- fopen k filename ;;
  match stream with
  | None => ret (-1)
  | Some st =>
      r <- vfprintf k st fmt va ;;
      if 0 <=? r then fclose k st else ret r
  end.

(** ** SetupUserNamespace *)

Definition setgroups_file : string := "/proc/self/setgroups".
Definition uid_map_file : string := "/proc/self/uid_map".
Definition gid_map_file : string := "/proc/self/gid_map".

Definition map_format : string := "0 %d 1" ++ nl.

Definition setgroups_call : string :=
  "WriteFile(" ++ dq ++ "/proc/self/setgroups" ++ dq ++ ", "
               ++ dq ++ "deny" ++ dq ++ ")".

Definition map_call (file var : string) : string :=
  "WriteFile(" ++ dq ++ file ++ dq ++ ", "
               ++ dq ++ "0 %d 1" ++ bs ++ "n" ++ dq ++ ", " ++ var ++ ")".

Definition SetupUserNamespace (uid gid : Z) : M unit :=
  r <- WriteFile setgroups_file "deny" [] ;;
  e <- get errno ;;
  (if (r <? 0) && negb (e =? ENOENT)
   then (perror setgroups_call ;; exit (-1))
   else ret tt) ;;
  CHECK_CALL (map_call uid_map_file "uid")
             (WriteFile uid_map_file map_format [ArgInt uid]) ;;
  CHECK_CALL (map_call gid_map_file "gid")
             (WriteFile gid_map_file map_format [ArgInt gid]) ;;
  CHECK_CALL "setresuid(0, 0, 0)" (setresuid k 0 0 0) ;;
  CHECK_CALL "setresgid(0, 0, 0)" (setresgid k 0 0 0).

(** ** SpawnCommand *)

Fixpoint print_args (argv : list string) : M unit :=
  match argv with
  | [] => ret tt
  | a :: rest => PRINT_DEBUG ("arg: %s" ++ nl) [ArgStr a] ;; print_args rest
  end.

Definition source_file : string := "new-network-namespace.c".

(** [argv] is the vector up to its terminating null pointer; when it is
    empty, [argv[0]] is that null pointer and [execvp] is handed a null
    file name. *)
Definition SpawnCommand (argv : list string) : M unit :=
  print_args argv ;;
  match argv with
  | [] => fun s => (Crashed, s)
  | file :: _ =>
      CHECK_CALL "execvp(argv[0], argv)" (execvp k file argv) ;;
      PRINT_DEBUG ("Exec failed near %s:%d" ++ nl) [ArgStr source_file; ArgInt 103] ;;
      exit 1
  end.

(** ** main *)

Definition unshare_flags : Z :=
  Z.lor (Z.lor CLONE_NEWNS CLONE_NEWUSER) CLONE_NEWNET.

(** [int uid = getuid()] and [int gid = getgid()]: the ids are converted
    to [int] where they are handed on. *)
Definition main (argv : list string) : M Z :=
  opt <- ParseCommandLine argv ;;
  uid <- getuid k ;;
  gid <- getgid k ;;
  CHECK_CALL "unshare(CLONE_NEWNS | CLONE_NEWUSER | CLONE_NEWNET)"
             (unshare k unshare_flags) ;;
  SetupUserNamespace (int_of_uid uid) (int_of_uid gid) ;;
  SpawnCommand (args opt) ;;
  ret 0.

(** A run of the program from a fresh process. *)
Definition run (argv : list string) : outcome Z * State :=
  main argv initial_state.

End Program.

(** * Definitions for stating and proving the properties *)

(** ** The usage message *)

Definition provided_text (argv : list string) : string :=
  fold_right (fun a acc => " " ++ a ++ acc) EmptyString argv.

Definition usage_head : string :=
  nl ++ "Create a new empty network namespace(plus user namespace) for testing"
     ++ nl ++ "Usage: ".

Definition usage_synopsis : string := " [-C|--] command arg1" ++ nl.

Definition usage_tail : string :=
  nl ++ "Mandatory arguments:" ++ nl
     ++ "  [--] command to run inside sandbox, followed by arguments" ++ nl
     ++ nl
     ++ "Optional arguments:" ++ nl
     ++ "  -D if set, debug info will be printed" ++ nl.

(** Everything [Usage] prints, in one piece. *)
Definition usage_text (argv : list string) (fmt : string) (va : list Arg) : string :=
  format fmt va ++ usage_head ++ argv0 argv ++ usage_synopsis
  ++ "  provided:" ++ provided_text argv ++ usage_tail.

(** ** What the option scan computes

    The loop around getopt, read off as a function of the argument list:
    where the scan stops ([optind]), whether [-D] was seen, or the first
    character that is not an option. *)

Inductive scan_result : Type :=
| ScanDone (i : nat) (dbg : bool)
| ScanBad (c : ascii) (i : nat) (rest : string) (dbg : bool).

Fixpoint scan_cluster (cs : string) (i : nat) (dbg : bool)
         (next : scan_result) : scan_result :=
  match cs with
  | EmptyString => next
  | String c cs' =>
      if Ascii.eqb c "D" then scan_cluster cs' i true next
      else ScanBad c (match cs' with
                      | EmptyString => S i
                      | String _ _ => i
                      end) cs' dbg
  end.

Fixpoint scan_args (rest : list string) (i : nat) (dbg : bool) : scan_result :=
  match rest with
  | [] => ScanDone i dbg
  | arg :: rest' =>
      if String.eqb arg "--" then ScanDone (S i) dbg
      else
        match arg with
        | String dash (String c cs) =>
            if Ascii.eqb dash "-"
            then scan_cluster (String c cs) i dbg (scan_args rest' (S i) true)
            else ScanDone i dbg
        | _ => ScanDone i dbg
        end
  end.

(** The scan that is left to do from a state of getopt. *)
Definition scan_state (argv : list string) (s : State) : scan_result :=
  match nextchar s with
  | EmptyString => scan_args (skipn (optind s) argv) (optind s) (global_debug s)
  | String c cs =>
      scan_cluster (String c cs) (optind s) (global_debug s)
                   (scan_args (skipn (S (optind s)) argv) (S (optind s)) true)
  end.

Definition scan_finish (argv : list string) (r : scan_result) (s : State)
  : outcome unit * State :=
  match r with
  | ScanDone i dbg => (Returned tt, set_debug dbg (set_cursor i EmptyString s))
  | ScanBad c i rest dbg =>
      (Exited 1,
       print_err (usage_text argv "Unrecognized argument: -%c (%d)"
                             [ArgChar c; ArgInt (Z.of_nat i)])
                 (set_optopt c (set_cursor i rest (set_debug dbg s))))
  end.

(** The characters getopt has not looked at yet. *)
Definition scan_measure (argv : list string) (s : State) : nat :=
  match nextchar s with
  | EmptyString => total_length (skipn (optind s) argv)
  | String _ cs => S (String.length cs) + total_length (skipn (S (optind s)) argv)
  end.

(** ** Pseudo-file writes, as the kernel answers them *)

(** What [WriteFile] meets: the first call that fails, or success. *)
Definition write_result (k : Kernel) (file text : string) : result :=
  match k_fopen k file with
  | Err e => Err e
  | Ok =>
      match k_vfprintf k file text with
      | Err e => Err e
      | Ok => k_fclose k file
      end
  end.

(** The line [perror] prints for a failed call. *)
Definition perror_line (call : string) (e : Z) : string :=
  call ++ ": " ++ strerror e ++ nl.

(** The mapping line for an id: inner id 0, the outer id, count 1. *)
Definition map_line (id : Z) : string := "0 " ++ show_int id ++ " 1" ++ nl.

(** The calls [WriteFile] issues, up to the first that fails. *)
Definition write_events (k : Kernel) (file text : string) : list Event :=
  EvFopen file (k_fopen k file)
  :: match k_fopen k file with
     | Err _ => []
     | Ok =>
         EvVfprintf file text (k_vfprintf k file text)
         :: match k_vfprintf k file text with
            | Err _ => []
            | Ok => [EvFclose file (k_fclose k file)]
            end
     end.

Definition log (evs : list Event) (s : State) : State :=
  {| errno := errno s; global_debug := global_debug s; optind := optind s;
     optopt := optopt s; nextchar := nextchar s; stderr := stderr s;
     trace := trace s ++ evs |}.

(** What [CHECK_CALL] does once its call has failed. *)
Definition die (call : string) : M unit :=
  fun s => (Exited 1, print_err (perror_line call (errno s)) s).

(** The lines [SpawnCommand] prints for its arguments under [-D]. *)
Definition debug_args_text (dbg : bool) (argv : list string) : string :=
  if dbg
  then fold_right (fun a acc => "sandbox.c: arg: " ++ a ++ nl ++ acc)
                  EmptyString argv
  else EmptyString.

(** ** The Identity Remapper, following the specification

    Step 1 may fail because the control file is not there; every other
    failure of steps 1 to 4 is fatal. *)

Inductive verdict : Type :=
| Proceed
| Fatal (status : Z) (message : string).

Definition elevate_spec (k : Kernel) : verdict :=
  match k_setresuid k 0 0 0 with
  | Err e => Fatal 1 (perror_line "setresuid(0, 0, 0)" e)
  | Ok =>
      match k_setresgid k 0 0 0 with
      | Err e => Fatal 1 (perror_line "setresgid(0, 0, 0)" e)
      | Ok => Proceed
      end
  end.

Definition mappings_spec (k : Kernel) (uid gid : Z) : verdict :=
  match write_result k uid_map_file (map_line uid) with
  | Err e => Fatal 1 (perror_line (map_call uid_map_file "uid") e)
  | Ok =>
      match write_result k gid_map_file (map_line gid) with
      | Err e => Fatal 1 (perror_line (map_call gid_map_file "gid") e)
      | Ok => elevate_spec k
      end
  end.

Definition identity_remapper_spec (k : Kernel) (uid gid : Z) : verdict :=
  match write_result k setgroups_file "deny" with
  | Ok => mappings_spec k uid gid
  | Err e =>
      if e =? ENOENT then mappings_spec k uid gid
      else Fatal 255 (perror_line setgroups_call e)
  end.

(** ** The two halves of [main] *)

(** What [main] does once the command line is parsed. *)
Definition launch (k : Kernel) (opt : Options) : M Z :=
  uid <- getuid k ;;
  gid <- getgid k ;;
  CHECK_CALL "unshare(CLONE_NEWNS | CLONE_NEWUSER | CLONE_NEWNET)"
             (unshare k unshare_flags) ;;
  SetupUserNamespace k (int_of_uid uid) (int_of_uid gid) ;;
  SpawnCommand k (args opt) ;;
  ret 0.

(** The state in which a successful parse leaves a fresh process. *)
Definition parsed_state (dbg : bool) (i : nat) : State :=
  set_debug dbg (set_cursor i EmptyString initial_state).

(** What [ParseCommandLine] comes to, by the scan of the arguments. *)
Definition parse_result (argv : list string) (s : State)
  : outcome Options * State :=
  match scan_state argv s with
  | ScanDone i dbg =>
      let s' := set_debug dbg (set_cursor i EmptyString s) in
      if (List.length argv <=? i)%nat
      then (Exited 1, print_err (usage_text argv "No command specified" []) s')
      else (Returned {| args := skipn i argv |}, s')
  | ScanBad c i rest dbg =>
      (Exited 1,
       print_err (usage_text argv "Unrecognized argument: -%c (%d)"
                             [ArgChar c; ArgInt (Z.of_nat i)])
                 (set_optopt c (set_cursor i rest (set_debug dbg s))))
  end.

(** ** Reading a trace *)

Definition unshare_requests (t : list Event) : list Z :=
  flat_map (fun ev => match ev with
                      | EvUnshare flags _ => [flags]
                      | _ => []
                      end) t.

(** The files opened for writing, in order. *)
Definition opened (t : list Event) : list string :=
  flat_map (fun ev => match ev with
                      | EvFopen file _ => [file]
                      | _ => []
                      end) t.

(** The texts handed to the kernel, each with its file, in order. *)
Definition written (t : list Event) : list (string * string) :=
  flat_map (fun ev => match ev with
                      | EvVfprintf file text _ => [(file, text)]
                      | _ => []
                      end) t.

Definition event_result (ev : Event) : result :=
  match ev with
  | EvGetuid _ | EvGetgid _ => Ok
  | EvUnshare _ r | EvFopen _ r | EvVfprintf _ _ r | EvFclose _ r
  | EvSetresuid _ _ _ r | EvSetresgid _ _ _ r | EvExecvp _ _ r => r
  end.

Definition failed (ev : Event) : bool :=
  match event_result ev with
  | Ok => false
  | Err _ => true
  end.

(** The pseudo-file an event touches, if any. *)
Definition event_file (ev : Event) : option string :=
  match ev with
  | EvFopen file _ | EvVfprintf file _ _ | EvFclose file _ => Some file
  | _ => None
  end.

Definition touches (file : string) (ev : Event) : bool :=
  match event_file ev with
  | Some f => String.eqb f file
  | None => false
  end.

(** ** The stages of the ordering invariant *)

Definition unshare_succeeded (ev : Event) : bool :=
  match ev with
  | EvUnshare _ Ok => true
  | _ => false
  end.

(** The last call of a successful [WriteFile] on [file]. *)
Definition closed_ok (file : string) (ev : Event) : bool :=
  match ev with
  | EvFclose f Ok => String.eqb f file
  | _ => false
  end.

Definition is_mapping_write (ev : Event) : bool :=
  touches uid_map_file ev || touches gid_map_file ev.

Definition is_elevation (ev : Event) : bool :=
  match ev with
  | EvSetresuid _ _ _ _ | EvSetresgid _ _ _ _ => true
  | _ => false
  end.

Definition is_namespace_request (ev : Event) : bool :=
  match ev with
  | EvUnshare _ _ => true
  | _ => false
  end.

(** A failure of namespace creation, of a mapping write or of the
    credential elevation. *)
Definition stage_failure (ev : Event) : bool :=
  failed ev && (is_namespace_request ev || is_mapping_write ev || is_elevation ev).

Definition is_nil {A : Type} (l : list A) : bool :=
  match l with
  | [] => true
  | _ :: _ => false
  end.

(** The ordering invariant at one position of a trace: the events before
    it, the event, the events after it. *)
Definition ordered_at (before : list Event) (ev : Event) (after : list Event)
  : bool :=
  implb (is_mapping_write ev) (existsb unshare_succeeded before)
  && implb (is_elevation ev)
           (existsb (closed_ok uid_map_file) before
            && existsb (closed_ok gid_map_file) before)
  && implb (stage_failure ev) (is_nil after).

Fixpoint ordered_from (before t : list Event) : bool :=
  match t with
  | [] => true
  | ev :: after =>
      ordered_at before ev after && ordered_from (before ++ [ev]) after
  end.

(** ** Where a run failed, read off its trace *)

Inductive Stage : Type :=
| StUsage
| StNamespace
| StGroupOverride
| StUidMap
| StGidMap
| StCredentials
| StExec.

Definition stage_of_file (file : string) : Stage :=
  if String.eqb file setgroups_file then StGroupOverride
  else if String.eqb file uid_map_file then StUidMap
  else StGidMap.

(** The stage of the last call issued; no call at all is a usage error. *)
Definition failing_stage (t : list Event) : Stage :=
  match rev t with
  | [] => StUsage
  | ev :: _ =>
      match ev with
      | EvGetuid _ | EvGetgid _ => StUsage
      | EvUnshare _ _ => StNamespace
      | EvFopen file _ | EvVfprintf file _ _ | EvFclose file _ => stage_of_file file
      | EvSetresuid _ _ _ _ | EvSetresgid _ _ _ _ => StCredentials
      | EvExecvp _ _ _ => StExec
      end
  end.

(** The run ended on a call that failed, or issued none. *)
Definition ended_on_failure (t : list Event) : bool :=
  match rev t with
  | [] => true
  | ev :: _ => failed ev
  end.

(** The exit status the code uses at each stage. *)
Definition stage_status (st : Stage) : Z :=
  match st with
  | StGroupOverride => 255
  | _ => 1
  end.

(** ** Kernels that differ only in the group-override control file *)

Definition except_setgroups {A : Type} (file : string) (here other : A) : A :=
  if String.eqb file setgroups_file then here else other.

Definition setgroups_absent (k : Kernel) : Kernel :=
  {| k_getuid := k_getuid k; k_getgid := k_getgid k;
     k_unshare := k_unshare k;
     k_fopen := fun f => except_setgroups f (Err ENOENT) (k_fopen k f);
     k_vfprintf := k_vfprintf k;
     k_fclose := k_fclose k;
     k_setresuid := k_setresuid k; k_setresgid := k_setresgid k;
     k_execvp := k_execvp k |}.

Definition setgroups_writable (k : Kernel) : Kernel :=
  {| k_getuid := k_getuid k; k_getgid := k_getgid k;
     k_unshare := k_unshare k;
     k_fopen := fun f => except_setgroups f Ok (k_fopen k f);
     k_vfprintf := fun f t => except_setgroups f Ok (k_vfprintf k f t);
     k_fclose := fun f => except_setgroups f Ok (k_fclose k f);
     k_setresuid := k_setresuid k; k_setresgid := k_setresgid k;
     k_execvp := k_execvp k |}.

(** What a user of the launcher can see of a run. *)
Definition observable (r : outcome Z * State) : outcome Z * string :=
  (fst r, stderr (snd r)).

(** ** Command lines without a command *)

Fixpoint all_D (cs : string) : bool :=
  match cs with
  | EmptyString => true
  | String c cs' => Ascii.eqb c "D" && all_D cs'
  end.

(** [-D], [-DD], ...: a token made of the one option the tool accepts. *)
Definition is_debug_flag (a : string) : bool :=
  match a with
  | String dash (String c cs) => Ascii.eqb dash "-" && all_D (String c cs)
  | _ => false
  end.



(** ** Looking for words in a diagnostic *)

Fixpoint mentions (word text : string) : bool :=
  String.prefix word text
  || match text with
     | EmptyString => false
     | String _ text' => mentions word text'
     end.

(** ** Sample kernels *)

Definition kernel_of (uid gid : Z) (on_unshare : result)
           (on_fopen : string -> result) (on_exec : result) : Kernel :=
  {| k_getuid := uid; k_getgid := gid;
     k_unshare := fun _ => on_unshare;
     k_fopen := on_fopen;
     k_vfprintf := fun _ _ => Ok;
     k_fclose := fun _ => Ok;
     k_setresuid := fun _ _ _ => Ok;
     k_setresgid := fun _ _ _ => Ok;
     k_execvp := fun _ _ => on_exec |}.

(** Everything works. *)
Definition kernel_fine : Kernel :=
  kernel_of 1000 100 Ok (fun _ => Ok) Ok.

(** Everything works until the command turns out not to exist. *)
Definition kernel_no_binary : Kernel :=
  kernel_of 1000 100 Ok (fun _ => Ok) (Err ENOENT).

(** Unprivileged user namespaces are disabled. *)
Definition kernel_no_userns : Kernel :=
  kernel_of 1000 100 (Err EPERM) (fun _ => Ok) Ok.

(** A kernel without the group-override control file. *)
Definition kernel_old : Kernel :=
  kernel_of 1000 100 Ok
            (fun f => if String.eqb f setgroups_file then Err ENOENT else Ok) Ok.

(** The mapping files cannot be opened. *)
Definition kernel_no_maps : Kernel :=
  kernel_of 1000 100 Ok
            (fun f => if String.eqb f setgroups_file then Ok else Err EACCES) Ok.

(** The caller's uid is beyond the range of [int]. *)
Definition kernel_high_uid : Kernel :=
  kernel_of 4294967294 100 Ok (fun _ => Ok) Ok.

(** ** Shapes of command-line tokens *)

(** A token getopt takes for options: a dash and at least one more
    character. *)
Definition is_option_token (a : string) : bool :=
  match a with
  | String dash (String _ _) => Ascii.eqb dash "-"
  | _ => false
  end.

(** ** The calls of a run and how it ended, without what it printed *)

Definition behaviour (r : outcome Z * State) : outcome Z * list Event :=
  (fst r, trace (snd r)).

(** ** The order of the calls inside the Identity Remapper *)

Definition setresuid_succeeded (ev : Event) : bool :=
  match ev with
  | EvSetresuid _ _ _ Ok => true
  | _ => false
  end.

Definition is_setresgid (ev : Event) : bool :=
  match ev with
  | EvSetresgid _ _ _ _ => true
  | _ => false
  end.

(** An elevation call asks for id 0 three times over. *)
Definition asks_for_root (ev : Event) : bool :=
  match ev with
  | EvSetresuid r e s _ | EvSetresgid r e s _ => (r =? 0) && (e =? 0) && (s =? 0)
  | _ => true
  end.

Definition remapper_ordered_at (before : list Event) (ev : Event) : bool :=
  implb (is_mapping_write ev) (existsb (touches setgroups_file) before)
  && implb (touches gid_map_file ev) (existsb (closed_ok uid_map_file) before)
  && implb (is_setresgid ev) (existsb setresuid_succeeded before)
  && asks_for_root ev.

Fixpoint remapper_ordered_from (before t : list Event) : bool :=
  match t with
  | [] => true
  | ev :: after =>
      remapper_ordered_at before ev
      && remapper_ordered_from (before ++ [ev]) after
  end.

(** Two results of the option scan that differ by one position of the
    index, as when one more token stands in front. *)
Definition scan_shifted (r r' : scan_result) : Prop :=
  match r, r' with
  | ScanDone j _, ScanDone j' _ => j' = S j
  | ScanBad c j rest _, ScanBad c' j' rest' _ =>
      c' = c /\ j' = S j /\ rest' = rest
  | _, _ => False
  end.

(** The index the option scan stops at is not before [i]. *)
Definition scan_from (i : nat) (r : scan_result) : Prop :=
  match r with
  | ScanDone j _ => (i <= j)%nat
  | ScanBad _ _ _ _ => True
  end.

(** * Verification *)

(** ** Strings *)

Lemma append_assoc (a b c : string) : (a ++ b) ++ c = a ++ (b ++ c).
Proof.
  induction a as [|x a IH]; simpl; [reflexivity|].
  now rewrite IH.
Qed.

Lemma append_empty_r (a : string) : a ++ EmptyString = a.
Proof.
  induction a as [|x a IH]; simpl; [reflexivity|].
  now rewrite IH.
Qed.

Lemma length_append (a b : string) :
  String.length (a ++ b) = (String.length a + String.length b)%nat.
Proof.
  induction a as [|x a IH]; simpl; [reflexivity|].
  now rewrite IH.
Qed.

Lemma append_nonempty (a b : string) :
  b <> EmptyString -> a ++ b <> EmptyString.
Proof.
  intros Hb H. apply (f_equal String.length) in H.
  rewrite length_append in H. destruct b; [congruence|].
  simpl in H. lia.
Qed.

Lemma print_provided_spec (argv : list string) (s : State) :
  print_provided argv s = (Returned tt, print_err (provided_text argv) s).
Proof.
  revert s. induction argv as [|a rest IH]; intros [e d oi oo nc err tr].
  - unfold print_err, ret; simpl. now rewrite append_empty_r.
  - simpl. unfold bind, fprintf_stderr, modify. rewrite IH.
    unfold print_err; simpl. rewrite append_empty_r, !append_assoc.
    reflexivity.
Qed.

Lemma usage_banner_format (a : string) :
  format
    (nl ++ "Create a new empty network namespace(plus user namespace) for testing"
        ++ nl ++ "Usage: %s [-C|--] command arg1" ++ nl)
    [ArgStr a]
  = usage_head ++ a ++ usage_synopsis.
Proof. reflexivity. Qed.

Lemma Usage_exits (argv : list string) (fmt : string) (va : list Arg) (s : State) :
  Usage argv fmt va s = (Exited 1, print_err (usage_text argv fmt va) s).
Proof.
  destruct s as [e d oi oo nc err tr].
  unfold Usage, bind, fprintf_stderr, modify.
  rewrite print_provided_spec, usage_banner_format.
  unfold exit, print_err, usage_text.
  cbn [stderr errno global_debug optind optopt nextchar trace].
  rewrite !append_assoc. reflexivity.
Qed.

(** ** The option scan *)

Lemma skipn_nth_error {A : Type} (l : list A) (i : nat) :
  skipn i l = match nth_error l i with
              | Some x => x :: skipn (S i) l
              | None => []
              end.
Proof.
  revert i. induction l as [|x l IH]; intros [|i]; simpl; try reflexivity.
  rewrite IH. destruct (nth_error l i); reflexivity.
Qed.

Local Arguments skipn : simpl never.

Lemma scan_finish_cursor (argv : list string) (r : scan_result)
      (i : nat) (rest : string) (b : bool) (s : State) :
  scan_finish argv r (set_debug b (set_cursor i rest s)) = scan_finish argv r s.
Proof. destruct r; reflexivity. Qed.

(** One option character taken, then the rest of the loop. *)
Lemma getopt_loop_take (argv : list string) (fuel : nat) (c : ascii)
      (cs : string) (s : State) :
  (forall s' : State,
      (scan_measure argv s' < fuel)%nat ->
      getopt_loop fuel argv s' = scan_finish argv (scan_state argv s') s') ->
  (String.length cs + total_length (skipn (S (optind s)) argv) < fuel)%nat ->
  (x <- take_option c cs ;;
   if x =? -1 then ret tt
   else (handle_option argv x ;; getopt_loop fuel argv)) s
  = scan_finish argv
      (scan_cluster (String c cs) (optind s) (global_debug s)
         (scan_args (skipn (S (optind s)) argv) (S (optind s)) true)) s.
Proof.
  intros IH Hm. destruct s as [e d oi oo nc err tr].
  unfold bind, take_option. simpl.
  destruct (Ascii.eqb c "D") eqn:Hc; simpl.
  - unfold handle_option, bind, modify. simpl. rewrite IH.
    + unfold scan_state. simpl. destruct cs; simpl; apply scan_finish_cursor.
    + unfold scan_measure. simpl in *. destruct cs; simpl in *; lia.
  - unfold handle_option, bind, get. simpl. rewrite Usage_exits.
    destruct cs; reflexivity.
Qed.

Lemma getopt_loop_scan (argv : list string) (fuel : nat) (s : State) :
  (scan_measure argv s < fuel)%nat ->
  getopt_loop fuel argv s = scan_finish argv (scan_state argv s) s.
Proof.
  revert s. induction fuel as [|fuel IH]; intros s Hm; [lia|].
  change (getopt_loop (S fuel) argv)
    with (x <- getopt argv ;;
          if x =? -1 then ret tt
          else (handle_option argv x ;; getopt_loop fuel argv)).
  destruct (nextchar s) as [|c cs] eqn:Hnc.
  - assert (Hg : forall (B : Type) (f : Z -> M B),
               bind (getopt argv) f s
               = match nth_error argv (optind s) with
                 | None => f (-1) s
                 | Some arg =>
                     if String.eqb arg "--"
                     then f (-1) (set_cursor (S (optind s)) EmptyString s)
                     else match arg with
                          | String dash (String c rest) =>
                              if Ascii.eqb dash "-"
                              then bind (take_option c rest) f s
                              else f (-1) s
                          | _ => f (-1) s
                          end
                 end).
    { intros B f. unfold bind at 1, getopt. rewrite Hnc.
      destruct (nth_error argv (optind s)) as [arg|]; [|reflexivity].
      destruct (String.eqb arg "--"); [reflexivity|].
      destruct arg as [|dash [|c rest]]; try reflexivity.
      destruct (Ascii.eqb dash "-"); reflexivity. }
    rewrite Hg. unfold scan_state, scan_measure in *. rewrite Hnc in *.
    rewrite (skipn_nth_error argv (optind s)) in *.
    destruct s as [e d oi oo nc err tr]. simpl in *. subst nc.
    destruct (nth_error argv oi) as [arg|]; [|reflexivity].
    simpl. destruct (String.eqb arg "--"); [reflexivity|].
    destruct arg as [|dash [|c rest]]; try reflexivity.
    destruct (Ascii.eqb dash "-"); [|reflexivity].
    rewrite getopt_loop_take; [reflexivity|exact IH|].
    simpl in *. lia.
  - assert (Hg : forall (B : Type) (f : Z -> M B),
               bind (getopt argv) f s = bind (take_option c cs) f s).
    { intros B f. unfold bind, getopt. now rewrite Hnc. }
    rewrite Hg, getopt_loop_take; [|exact IH|].
    + unfold scan_state. now rewrite Hnc.
    + unfold scan_measure in Hm. rewrite Hnc in Hm. lia.
Qed.

Lemma total_length_skipn (l : list string) (i : nat) :
  (total_length (skipn i l) <= total_length l)%nat.
Proof.
  revert i. induction l as [|a l IH]; intros [|i]; simpl; try lia.
  unfold skipn; fold (skipn i l). specialize (IH i). lia.
Qed.

Lemma ParseCommandLine_spec (argv : list string) (s : State) :
  nextchar s = EmptyString ->
  ParseCommandLine argv s = parse_result argv s.
Proof.
  intros Hnc. unfold ParseCommandLine, parse_result.
  unfold bind at 1. rewrite getopt_loop_scan.
  - destruct (scan_state argv s) as [i dbg|c i rest dbg]; [|reflexivity].
    unfold scan_finish, bind, get. cbn [optind set_debug set_cursor].
    destruct (List.length argv <=? i)%nat; [|reflexivity].
    now rewrite Usage_exits.
  - unfold scan_measure. rewrite Hnc.
    pose proof (total_length_skipn argv (optind s)). lia.
Qed.

Lemma main_launch (k : Kernel) (argv : list string) :
  main k argv = bind (ParseCommandLine argv) (launch k).
Proof. reflexivity. Qed.

(** Every run is a usage error that issued no call, or the launch of a
    command that is a suffix of the arguments. *)
Lemma run_cases (k : Kernel) (argv : list string)
      (P : outcome Z * State -> Prop) :
  (forall (fmt : string) (va : list Arg) (s : State),
      errno s = 0 -> trace s = [] -> stderr s = usage_text argv fmt va ->
      (fmt = "No command specified" \/ fmt = "Unrecognized argument: -%c (%d)") ->
      P (Exited 1, s)) ->
  (forall (dbg : bool) (pre : list string) (cmd : string) (rest : list string),
      argv = (pre ++ cmd :: rest)%list ->
      P (launch k {| args := cmd :: rest |} (parsed_state dbg (List.length pre)))) ->
  P (run k argv).
Proof.
  intros Husage Hlaunch. unfold run. rewrite main_launch.
  unfold bind. rewrite ParseCommandLine_spec by reflexivity.
  unfold parse_result.
  destruct (scan_state argv initial_state) as [i dbg|c i rest dbg].
  - cbv zeta. destruct (Nat.leb_spec (List.length argv) i) as [Hle|Hlt].
    + apply (Husage "No command specified" []); auto.
    + assert (Hsplit : argv = (firstn i argv ++ skipn i argv)%list)
        by (symmetry; apply firstn_skipn).
      destruct (skipn i argv) as [|cmd rest] eqn:Hskip.
      * apply (f_equal (@List.length string)) in Hskip.
        rewrite length_skipn in Hskip. simpl in Hskip. lia.
      * specialize (Hlaunch dbg (firstn i argv) cmd rest Hsplit).
        rewrite length_firstn, Nat.min_l in Hlaunch by lia.
        exact Hlaunch.
  - apply (Husage "Unrecognized argument: -%c (%d)"
                  [ArgChar c; ArgInt (Z.of_nat i)]); auto.
Qed.

(** ** The model at work *)

Example run_id_u :
  observable (run kernel_fine ["new-network-namespace"; "--"; "id"; "-u"])
  = (Replaced "id" ["id"; "-u"], EmptyString).
Proof. reflexivity. Qed.

Example run_debug_shows_args :
  observable (run kernel_fine ["new-network-namespace"; "-D"; "id"; "-u"])
  = (Replaced "id" ["id"; "-u"],
     "sandbox.c: arg: id" ++ nl ++ "sandbox.c: arg: -u" ++ nl).
Proof. reflexivity. Qed.

Example run_unknown_flag :
  let r := run kernel_fine ["new-network-namespace"; "-Z"; "--"; "ls"] in
  fst r = Exited 1
  /\ String.prefix "Unrecognized argument: -Z (2)" (stderr (snd r)) = true
  /\ trace (snd r) = [].
Proof. vm_compute. repeat split. Qed.

Example run_old_kernel_trace :
  trace (snd (run kernel_old ["new-network-namespace"; "true"]))
  = [EvGetuid 1000; EvGetgid 100; EvUnshare unshare_flags Ok;
     EvFopen setgroups_file (Err ENOENT);
     EvFopen uid_map_file Ok; EvVfprintf uid_map_file (map_line 1000) Ok;
     EvFclose uid_map_file Ok;
     EvFopen gid_map_file Ok; EvVfprintf gid_map_file (map_line 100) Ok;
     EvFclose gid_map_file Ok;
     EvSetresuid 0 0 0 Ok; EvSetresgid 0 0 0 Ok;
     EvExecvp "true" ["true"] Ok].
Proof. reflexivity. Qed.

Example high_uid_is_printed_negative :
  map_line (int_of_uid 4294967294) = "0 -2 1" ++ nl.
Proof. reflexivity. Qed.

(** ** Symbolic execution of the calls *)

Lemma bind_ret {A B : Type} (a : A) (f : A -> M B) (s : State) :
  bind (ret a) f s = f a s.
Proof. reflexivity. Qed.

Lemma bind_assoc {A B C : Type} (m : M A) (f : A -> M B) (g : B -> M C)
      (s : State) :
  bind (bind m f) g s = bind m (fun a => bind (f a) g) s.
Proof.
  unfold bind. destruct (m s) as [[a| | | |] s']; reflexivity.
Qed.

Lemma bind_get {A B : Type} (proj : State -> A) (f : A -> M B) (s : State) :
  bind (get proj) f s = f (proj s) s.
Proof. reflexivity. Qed.

Lemma bind_modify {B : Type} (g : State -> State) (f : unit -> M B) (s : State) :
  bind (modify g) f s = f tt (g s).
Proof. reflexivity. Qed.

Lemma bind_syscall {B : Type} (ev : result -> Event) (r : result)
      (f : Z -> M B) (s : State) :
  bind (syscall ev r) f s = f (status_of r) (record (ev r) (settle r s)).
Proof. reflexivity. Qed.

Lemma bind_die {B : Type} (call : string) (f : unit -> M B) (s : State) :
  bind (die call) f s = (Exited 1, print_err (perror_line call (errno s)) s).
Proof. reflexivity. Qed.

Lemma bind_CHECK_CALL {B : Type} (call : string) (x : M Z) (f : unit -> M B)
      (s : State) :
  bind (CHECK_CALL call x) f s
  = bind x (fun r => if r =? -1 then bind (die call) f else f tt) s.
Proof.
  unfold CHECK_CALL, bind.
  destruct (x s) as [[r| | | |] s']; try reflexivity.
  destruct (r =? -1); reflexivity.
Qed.

Lemma record_log (ev : Event) (s : State) : record ev s = log [ev] s.
Proof. reflexivity. Qed.

Lemma settle_log (r : result) (evs : list Event) (s : State) :
  settle r (log evs s) = log evs (settle r s).
Proof. destruct r; reflexivity. Qed.

Lemma bind_WriteFile {B : Type} (k : Kernel) (file fmt : string)
      (va : list Arg) (f : Z -> M B) (s : State) :
  bind (WriteFile k file fmt va) f s
  = f (status_of (write_result k file (format fmt va)))
      (log (write_events k file (format fmt va))
           (settle (write_result k file (format fmt va)) s)).
Proof.
  unfold WriteFile, write_result, write_events.
  rewrite bind_assoc. unfold bind at 1, fopen.
  destruct (k_fopen k file) as [|e1]; [|reflexivity].
  rewrite bind_assoc. unfold bind at 1, vfprintf.
  destruct (k_vfprintf k file (format fmt va)) as [|e2].
  - assert (Hlen : (0 <=? Z.of_nat (String.length (format fmt va))) = true)
      by (apply Z.leb_le; lia).
    rewrite Hlen. unfold fclose. rewrite bind_syscall.
    cbn [settle]. rewrite !record_log, !settle_log.
    destruct s as [e0 d oi oo nc err tr].
    destruct (k_fclose k file); unfold log; simpl; rewrite <- !app_assoc;
      reflexivity.
  - cbn [Z.leb Z.compare]. rewrite bind_ret.
    destruct s as [e0 d oi oo nc err tr].
    unfold log, record, settle, set_errno; simpl. rewrite <- !app_assoc.
    reflexivity.
Qed.

Lemma print_args_spec (argv : list string) (s : State) :
  print_args argv s
  = (Returned tt, print_err (debug_args_text (global_debug s) argv) s).
Proof.
  revert s. induction argv as [|a rest IH]; intros [e d oi oo nc err tr].
  - unfold print_err, debug_args_text; simpl.
    destruct d; simpl; rewrite append_empty_r; reflexivity.
  - simpl. unfold bind at 1, PRINT_DEBUG. rewrite bind_get.
    cbn [global_debug]. unfold debug_args_text. destruct d.
    + unfold fprintf_stderr, modify. rewrite IH.
      unfold print_err, debug_args_text; simpl.
      rewrite !append_assoc. simpl. rewrite !append_assoc. reflexivity.
    + unfold ret. rewrite IH. reflexivity.
Qed.

Local Opaque show_int strerror.

Lemma map_format_line (id : Z) : format map_format [ArgInt id] = map_line id.
Proof. reflexivity. Qed.

Lemma deny_format : format "deny" [] = "deny".
Proof. reflexivity. Qed.

Lemma CHECK_CALL_last (call : string) (x : M Z) (s : State) :
  CHECK_CALL call x s
  = bind x (fun r => if r =? -1 then die call else ret tt) s.
Proof.
  unfold CHECK_CALL, bind.
  destruct (x s) as [[r| | | |] s']; reflexivity.
Qed.

Lemma bind_perror {B : Type} (call : string) (f : unit -> M B) (s : State) :
  bind (perror call) f s = f tt (print_err (perror_line call (errno s)) s).
Proof. reflexivity. Qed.

Lemma bind_exit {A B : Type} (code : Z) (f : A -> M B) (s : State) :
  bind (exit code) f s = (Exited (exit_status code), s).
Proof. reflexivity. Qed.

Lemma exit_status_1 : exit_status 1 = 1.
Proof. reflexivity. Qed.

Lemma exit_status_minus_1 : exit_status (-1) = 255.
Proof. reflexivity. Qed.

Lemma bind_print_args {B : Type} (argv : list string) (f : unit -> M B)
      (s : State) :
  bind (print_args argv) f s
  = f tt (print_err (debug_args_text (global_debug s) argv) s).
Proof. unfold bind. now rewrite print_args_spec. Qed.

Lemma bind_execvp {B : Type} (k : Kernel) (file : string) (argv : list string)
      (f : Z -> M B) (s : State) :
  bind (execvp k file argv) f s
  = match k_execvp k file argv with
    | Ok => (Replaced file argv, record (EvExecvp file argv Ok) s)
    | Err e => f (-1) (record (EvExecvp file argv (Err e)) (set_errno e s))
    end.
Proof.
  unfold bind, execvp. destruct (k_execvp k file argv); reflexivity.
Qed.

Lemma bind_getuid {B : Type} (k : Kernel) (f : Z -> M B) (s : State) :
  bind (getuid k) f s = f (k_getuid k) (record (EvGetuid (k_getuid k)) s).
Proof. reflexivity. Qed.

Lemma bind_getgid {B : Type} (k : Kernel) (f : Z -> M B) (s : State) :
  bind (getgid k) f s = f (k_getgid k) (record (EvGetgid (k_getgid k)) s).
Proof. reflexivity. Qed.

Lemma write_events_Ok (k : Kernel) (file text : string) :
  write_result k file text = Ok ->
  k_fopen k file = Ok
  /\ write_events k file text
     = [EvFopen file Ok; EvVfprintf file text Ok; EvFclose file Ok].
Proof.
  unfold write_result, write_events.
  destruct (k_fopen k file); [|discriminate].
  destruct (k_vfprintf k file text); [|discriminate].
  now intros ->.
Qed.

Lemma write_events_Err (k : Kernel) (file text : string) (e : Z) :
  write_result k file text = Err e ->
  (k_fopen k file = Err e
   /\ write_events k file text = [EvFopen file (Err e)])
  \/ (k_fopen k file = Ok
      /\ write_events k file text
         = [EvFopen file Ok; EvVfprintf file text (Err e)])
  \/ (k_fopen k file = Ok
      /\ write_events k file text
         = [EvFopen file Ok; EvVfprintf file text Ok; EvFclose file (Err e)]).
Proof.
  unfold write_result, write_events.
  destruct (k_fopen k file); [|intros [= ->]; now left].
  destruct (k_vfprintf k file text); [|intros [= ->]; right; now left].
  intros ->. right; now right.
Qed.

Ltac exec_step :=
  first [ rewrite bind_assoc
        | rewrite bind_perror
        | rewrite bind_exit
        | rewrite bind_ret
        | rewrite bind_get
        | rewrite bind_modify
        | rewrite bind_getuid
        | rewrite bind_getgid
        | rewrite bind_print_args
        | rewrite bind_execvp
        | rewrite bind_WriteFile
        | rewrite bind_CHECK_CALL
        | rewrite CHECK_CALL_last
        | rewrite bind_syscall
        | rewrite bind_die ].

Ltac tidy :=
  rewrite ?map_format_line, ?deny_format, ?exit_status_1, ?exit_status_minus_1;
  cbn [status_of settle set_errno set_debug set_cursor print_err record log
       parsed_state initial_state args
       errno global_debug optind optopt nextchar stderr trace fst snd
       Z.eqb Z.ltb Z.leb Z.compare Z.opp Pos.eqb Pos.compare Pos.compare_cont
       andb negb orb].

Ltac exec := repeat (exec_step; tidy).

Ltac case_step :=
  match goal with
  | |- context [status_of ?r] => destruct r eqn:?; tidy
  | |- context [?e =? ENOENT] => destruct (Z.eqb_spec e ENOENT); tidy
  | |- context [match k_execvp ?k ?f ?a with Ok => _ | Err _ => _ end] =>
      destruct (k_execvp k f a) eqn:?; tidy
  end.

Ltac go := repeat (exec; try case_step); unfold die, ret; tidy.

(** Run [launch] along every path the kernel can force. *)
Ltac launch_paths :=
  match goal with
  | |- context [launch ?k ?o ?s] =>
      let r := fresh "r" in
      let Hr := fresh "Hr" in
      remember (launch k o s) as r eqn:Hr; symmetry in Hr; revert Hr;
      unfold launch, SetupUserNamespace, SpawnCommand, unshare, setresuid,
        setresgid;
      cbv zeta; go; intros <-; tidy
  end.

(** Spell out the calls of each [WriteFile] of the path at hand. *)
Ltac spell_writes :=
  repeat match goal with
         | H : write_result ?k ?f ?t = Ok |- _ =>
             let Ho := fresh "Hopen" in
             let Hw := fresh "Hw" in
             destruct (write_events_Ok k f t H) as [Ho Hw];
             rewrite Hw; clear H Hw
         | H : write_result ?k ?f ?t = Err ?e |- _ =>
             let Ho := fresh "Hopen" in
             let Hw := fresh "Hw" in
             destruct (write_events_Err k f t e H) as [[Ho Hw]|[[Ho Hw]|[Ho Hw]]];
             rewrite Hw; clear H Hw
         end;
  cbn [app].

(** ** The Identity Remapper *)

(** C4. [SetupUserNamespace] does what the specification of the Identity
    Remapper says: a group-override write that fails with ENOENT (the
    control file is not there) counts as done and the mapping writes
    follow; that write failing with any other errno, and any failure of
    the UID-mapping write, of the GID-mapping write or of the credential
    elevation, prints the error of the failed call and ends the process
    with a status that is not 0. *)
Theorem SetupUserNamespace_refines_spec (k : Kernel) (uid gid : Z) (s : State) :
  let r := SetupUserNamespace k uid gid s in
  match identity_remapper_spec k uid gid with
  | Proceed => fst r = Returned tt /\ stderr (snd r) = stderr s
  | Fatal status message =>
      fst r = Exited status /\ status <> 0 /\ stderr (snd r) = stderr s ++ message
  end.
Proof.
  unfold identity_remapper_spec, mappings_spec, elevate_spec.
  unfold SetupUserNamespace, setresuid, setresgid.
  cbv zeta. go.
  all: repeat split; (reflexivity || discriminate).
Qed.

(** ** The order of the stages *)

Lemma ordered_from_sound (t before : list Event) :
  ordered_from before t = true ->
  forall (pre : list Event) (ev : Event) (post : list Event),
    t = (pre ++ ev :: post)%list ->
    ordered_at (before ++ pre) ev post = true.
Proof.
  revert before. induction t as [|x t IH]; intros before H pre ev post Ht.
  - destruct pre; discriminate.
  - simpl in H. apply andb_true_iff in H as [Hx Hrest].
    destruct pre as [|y pre]; simpl in Ht; injection Ht as <- ->.
    + now rewrite app_nil_r.
    + specialize (IH _ Hrest pre ev post eq_refl).
      now rewrite <- app_assoc in IH.
Qed.

Lemma run_ordered (k : Kernel) (argv : list string) :
  ordered_from [] (trace (snd (run k argv))) = true.
Proof.
  apply run_cases.
  - intros fmt va s _ Ht _ _. simpl. now rewrite Ht.
  - intros dbg pre cmd rest _. launch_paths.
    all: spell_writes.
    all: reflexivity.
Qed.

(** C3. In every run, a call on the UID- or GID-mapping file comes only
    after the namespace request has succeeded, a credential-elevation call
    comes only after both mapping files were written and closed without
    error, and a failed call of the namespace, mapping or elevation stage
    is the last call of the run. *)
Theorem stage_ordering (k : Kernel) (argv : list string)
        (pre : list Event) (ev : Event) (post : list Event) :
  trace (snd (run k argv)) = (pre ++ ev :: post)%list ->
  (is_mapping_write ev = true -> existsb unshare_succeeded pre = true)
  /\ (is_elevation ev = true ->
      existsb (closed_ok uid_map_file) pre = true
      /\ existsb (closed_ok gid_map_file) pre = true)
  /\ (stage_failure ev = true -> post = []).
Proof.
  intros Ht.
  pose proof (ordered_from_sound _ _ (run_ordered k argv) pre ev post Ht) as H.
  simpl in H. unfold ordered_at in H.
  apply andb_true_iff in H as [H Hfail].
  apply andb_true_iff in H as [Hmap Hcred].
  split; [|split].
  - intros Hev. now rewrite Hev in Hmap.
  - intros Hev. rewrite Hev in Hcred. simpl in Hcred.
    now apply andb_true_iff in Hcred.
  - intros Hev. rewrite Hev in Hfail. now destruct post.
Qed.

Lemma stage_ordering_witness :
  (is_mapping_write (EvFopen uid_map_file (Err EACCES)) = true ->
   existsb unshare_succeeded
     [EvGetuid 1000; EvGetgid 100; EvUnshare unshare_flags Ok;
      EvFopen setgroups_file Ok; EvVfprintf setgroups_file "deny" Ok;
      EvFclose setgroups_file Ok] = true)
  /\ (is_elevation (EvFopen uid_map_file (Err EACCES)) = true ->
      existsb (closed_ok uid_map_file)
        [EvGetuid 1000; EvGetgid 100; EvUnshare unshare_flags Ok;
         EvFopen setgroups_file Ok; EvVfprintf setgroups_file "deny" Ok;
         EvFclose setgroups_file Ok] = true
      /\ existsb (closed_ok gid_map_file)
           [EvGetuid 1000; EvGetgid 100; EvUnshare unshare_flags Ok;
            EvFopen setgroups_file Ok; EvVfprintf setgroups_file "deny" Ok;
            EvFclose setgroups_file Ok] = true)
  /\ (stage_failure (EvFopen uid_map_file (Err EACCES)) = true -> @nil Event = []).
Proof.
  apply (stage_ordering kernel_no_maps ["new-network-namespace"; "true"]).
  vm_compute. reflexivity.
Defined.

(** ** Namespace creation *)

Ltac conjuncts := repeat match goal with |- _ /\ _ => split end.

Ltac find_event H :=
  cbn [In] in H;
  repeat match type of H with
         | _ \/ _ => destruct H as [H|H]
         end;
  try contradiction; try discriminate H.

Lemma parsed_run (k : Kernel) (argv : list string) (opt : Options)
      (s0 : State) :
  ParseCommandLine argv initial_state = (Returned opt, s0) ->
  exists (dbg : bool) (pre : list string) (cmd : string) (rest : list string),
    argv = (pre ++ cmd :: rest)%list
    /\ run k argv
       = launch k {| args := cmd :: rest |} (parsed_state dbg (List.length pre)).
Proof.
  intros Hp. unfold run. rewrite main_launch. unfold bind. rewrite Hp.
  rewrite ParseCommandLine_spec in Hp by reflexivity.
  unfold parse_result in Hp.
  destruct (scan_state argv initial_state) as [i dbg|c i rs dbg];
    [|discriminate Hp].
  cbv zeta in Hp.
  destruct (Nat.leb_spec (List.length argv) i) as [Hle|Hlt]; [discriminate Hp|].
  injection Hp as <- <-.
  destruct (skipn i argv) as [|cmd rest] eqn:Hskip.
  - apply (f_equal (@List.length string)) in Hskip.
    rewrite length_skipn in Hskip. simpl in Hskip. lia.
  - exists dbg, (firstn i argv), cmd, rest. split.
    + rewrite <- Hskip. symmetry. apply firstn_skipn.
    + rewrite length_firstn, Nat.min_l by lia. reflexivity.
Qed.

(** C7. Every run that gets past the command line issues the namespace
    request, once, with the user, mount and network flags together in the
    one call; no other [unshare] shows in the run; and if the request
    fails with errno [e] the run prints the error of that call, exits with
    status 1 and issues no further call. *)
Theorem namespace_request (k : Kernel) (argv : list string)
        (opt : Options) (s0 : State) :
  ParseCommandLine argv initial_state = (Returned opt, s0) ->
  Z.land unshare_flags CLONE_NEWUSER = CLONE_NEWUSER
  /\ Z.land unshare_flags CLONE_NEWNS = CLONE_NEWNS
  /\ Z.land unshare_flags CLONE_NEWNET = CLONE_NEWNET
  /\ unshare_requests (trace (snd (run k argv))) = [unshare_flags]
  /\ In (EvUnshare unshare_flags (k_unshare k unshare_flags))
        (trace (snd (run k argv)))
  /\ (forall (flags : Z) (res : result),
        In (EvUnshare flags res) (trace (snd (run k argv))) ->
        flags = unshare_flags /\ res = k_unshare k unshare_flags)
  /\ (forall e : Z,
        k_unshare k unshare_flags = Err e ->
        fst (run k argv) = Exited 1
        /\ stderr (snd (run k argv))
           = perror_line "unshare(CLONE_NEWNS | CLONE_NEWUSER | CLONE_NEWNET)" e
        /\ trace (snd (run k argv))
           = [EvGetuid (k_getuid k); EvGetgid (k_getgid k);
              EvUnshare unshare_flags (Err e)]).
Proof.
  intros Hp.
  destruct (parsed_run k argv opt s0 Hp) as (dbg & pre & cmd & rest & _ & ->).
  launch_paths.
  all: spell_writes.
  all: conjuncts; try reflexivity.
  all: try (cbn [In]; auto 20; fail).
  all: try (intros flags res H; find_event H; injection H as <- <-;
            split; reflexivity).
  all: try (intros e' He'; congruence).
  all: intros e' He'; injection He' as <-; conjuncts; reflexivity.
Qed.

Lemma namespace_request_witness :
  Z.land unshare_flags CLONE_NEWUSER = CLONE_NEWUSER
  /\ Z.land unshare_flags CLONE_NEWNS = CLONE_NEWNS
  /\ Z.land unshare_flags CLONE_NEWNET = CLONE_NEWNET
  /\ unshare_requests
       (trace (snd (run kernel_no_userns ["new-network-namespace"; "true"])))
     = [unshare_flags]
  /\ In (EvUnshare unshare_flags (k_unshare kernel_no_userns unshare_flags))
        (trace (snd (run kernel_no_userns ["new-network-namespace"; "true"])))
  /\ (forall (flags : Z) (res : result),
        In (EvUnshare flags res)
           (trace (snd (run kernel_no_userns ["new-network-namespace"; "true"]))) ->
        flags = unshare_flags
        /\ res = k_unshare kernel_no_userns unshare_flags)
  /\ (forall e : Z,
        k_unshare kernel_no_userns unshare_flags = Err e ->
        fst (run kernel_no_userns ["new-network-namespace"; "true"]) = Exited 1
        /\ stderr (snd (run kernel_no_userns ["new-network-namespace"; "true"]))
           = perror_line "unshare(CLONE_NEWNS | CLONE_NEWUSER | CLONE_NEWNET)" e
        /\ trace (snd (run kernel_no_userns ["new-network-namespace"; "true"]))
           = [EvGetuid (k_getuid kernel_no_userns);
              EvGetgid (k_getgid kernel_no_userns);
              EvUnshare unshare_flags (Err e)]).
Proof.
  apply (namespace_request kernel_no_userns ["new-network-namespace"; "true"]
                           {| args := ["true"] |} (parsed_state false 1)).
  vm_compute. reflexivity.
Defined.

(** ** The Process Replacer *)

Lemma SpawnCommand_cons (k : Kernel) (file : string) (rest : list string)
      (s : State) :
  SpawnCommand k (file :: rest) s
  = let argv := file :: rest in
    let shown := print_err (debug_args_text (global_debug s) argv) s in
    match k_execvp k file argv with
    | Ok => (Replaced file argv, record (EvExecvp file argv Ok) shown)
    | Err e =>
        (Exited 1,
         print_err (perror_line "execvp(argv[0], argv)" e)
                   (record (EvExecvp file argv (Err e)) (set_errno e shown)))
    end.
Proof.
  unfold SpawnCommand. cbv zeta. go; reflexivity.
Qed.

Lemma perror_line_nonempty (call : string) (e : Z) :
  perror_line call e <> EmptyString.
Proof.
  unfold perror_line. rewrite <- !append_assoc.
  apply append_nonempty. discriminate.
Qed.

Lemma usage_text_nonempty (argv : list string) (fmt : string) (va : list Arg) :
  usage_text argv fmt va <> EmptyString.
Proof.
  unfold usage_text.
  rewrite <- (append_assoc (format fmt va)), <- (append_assoc _ (argv0 argv)).
  rewrite <- (append_assoc _ usage_synopsis).
  rewrite <- (append_assoc _ "  provided:").
  rewrite <- (append_assoc _ (provided_text argv)).
  apply append_nonempty. discriminate.
Qed.

(** C9. [SpawnCommand] never returns: handed a command vector it ends in
    the replaced process image, or in [exit(1)] right after the error of
    [execvp] is printed, with nothing printed after that and no later
    call; whatever vector it is handed, it does not come back to its
    caller; and no run of [main] returns, every one ends replaced or
    exited with a status that is not 0. *)
Theorem SpawnCommand_never_returns :
  (forall (k : Kernel) (file : string) (rest : list string) (s : State),
      let argv := file :: rest in
      let shown := print_err (debug_args_text (global_debug s) argv) s in
      SpawnCommand k argv s
      = match k_execvp k file argv with
        | Ok => (Replaced file argv, record (EvExecvp file argv Ok) shown)
        | Err e =>
            (Exited 1,
             print_err (perror_line "execvp(argv[0], argv)" e)
                       (record (EvExecvp file argv (Err e)) (set_errno e shown)))
        end)
  /\ (forall (k : Kernel) (argv : list string) (s : State),
         match fst (SpawnCommand k argv s) with
         | Returned _ => False
         | _ => True
         end)
  /\ (forall (k : Kernel) (argv : list string),
         (exists (file : string) (av : list string),
             fst (run k argv) = Replaced file av)
         \/ (exists status : Z,
                fst (run k argv) = Exited status /\ status <> 0)).
Proof.
  split; [|split].
  - intros k file rest s. apply SpawnCommand_cons.
  - intros k [|file rest] s.
    + unfold SpawnCommand. rewrite bind_print_args. exact I.
    + rewrite SpawnCommand_cons. cbv zeta.
      destruct (k_execvp k file (file :: rest)); exact I.
  - intros k argv. pattern (run k argv). apply run_cases.
    + intros fmt va s _ _ _ _. right. exists 1. now split.
    + intros dbg pre cmd rest _. launch_paths.
      all: first [ left; eexists; eexists; reflexivity
                 | right; eexists; split; [reflexivity|discriminate] ].
Qed.

(** C10. Whenever [ParseCommandLine] returns, from any state, the vector
    it leaves in [Options.args] is a suffix of [argv] that starts with a
    command token, and [SpawnCommand] on that vector dereferences no null
    pointer. *)
Theorem ParseCommandLine_args (argv : list string) (s : State)
        (opt : Options) (s' : State) :
  ParseCommandLine argv s = (Returned opt, s') ->
  (exists (pre : list string) (cmd : string) (rest : list string),
      argv = (pre ++ cmd :: rest)%list
      /\ List.length pre = optind s'
      /\ args opt = cmd :: rest)
  /\ (forall (k : Kernel) (s1 : State),
         fst (SpawnCommand k (args opt) s1) <> Crashed).
Proof.
  unfold ParseCommandLine, bind.
  destruct (getopt_loop (S (total_length argv)) argv s) as [[[]| | | |] s1];
    try discriminate.
  unfold get. destruct (Nat.leb_spec (List.length argv) (optind s1)) as [Hle|Hlt].
  - rewrite Usage_exits. discriminate.
  - unfold ret. intros [= <- <-]. cbn [args].
    destruct (skipn (optind s1) argv) as [|cmd rest] eqn:Hskip.
    + apply (f_equal (@List.length string)) in Hskip.
      rewrite length_skipn in Hskip. simpl in Hskip. lia.
    + split.
      * exists (firstn (optind s1) argv), cmd, rest. repeat split.
        -- rewrite <- Hskip. symmetry. apply firstn_skipn.
        -- rewrite length_firstn. lia.
      * intros k s2. rewrite SpawnCommand_cons. cbv zeta.
        destruct (k_execvp k cmd (cmd :: rest)); discriminate.
Qed.

Lemma ParseCommandLine_args_witness :
  (exists (pre : list string) (cmd : string) (rest : list string),
      ["new-network-namespace"; "-D"; "--"; "id"; "-u"]
      = (pre ++ cmd :: rest)%list
      /\ List.length pre = optind (parsed_state true 3)
      /\ args {| args := ["id"; "-u"] |} = cmd :: rest)
  /\ (forall (k : Kernel) (s1 : State),
         fst (SpawnCommand k (args {| args := ["id"; "-u"] |}) s1) <> Crashed).
Proof.
  apply (ParseCommandLine_args
           ["new-network-namespace"; "-D"; "--"; "id"; "-u"] initial_state).
  vm_compute. reflexivity.
Defined.

(** ** Exec failure *)

(** C1 does not hold as stated: with a command that does not exist the
    whole diagnostic is the line of [perror], and it names none of the
    causes listed in the comment above the [execvp] call. *)
Lemma exec_failure_names_no_cause :
  let r := run kernel_no_binary ["new-network-namespace"; "--"; "/nonexistent"] in
  fst r = Exited 1
  /\ stderr (snd r)
     = "execvp(argv[0], argv): No such file or directory" ++ nl
  /\ mentions "binary" (stderr (snd r)) = false
  /\ mentions "librar" (stderr (snd r)) = false
  /\ mentions "loader" (stderr (snd r)) = false
  /\ mentions "interpreter" (stderr (snd r)) = false.
Proof. vm_compute. repeat split; reflexivity. Qed.

(** C1, amended. Whenever [execvp] fails with errno [e], the run prints
    (after the argument lines of [-D], if any) the one line
    [execvp(argv[0], argv): <error string of e>] and exits with status 1. *)
Theorem exec_failure_diagnostic (k : Kernel) (argv : list string)
        (file : string) (av : list string) (e : Z) :
  In (EvExecvp file av (Err e)) (trace (snd (run k argv))) ->
  fst (run k argv) = Exited 1
  /\ stderr (snd (run k argv))
     = debug_args_text (global_debug (snd (run k argv))) av
       ++ perror_line "execvp(argv[0], argv)" e.
Proof.
  pattern (run k argv). apply run_cases.
  - intros fmt va s _ Ht _ _ H. cbn [snd] in H. rewrite Ht in H. contradiction.
  - intros dbg pre cmd rest _. launch_paths.
    all: spell_writes.
    all: intros H; find_event H.
    all: injection H as <- <- <-.
    all: split; reflexivity.
Qed.

Lemma exec_failure_diagnostic_witness :
  fst (run kernel_no_binary ["new-network-namespace"; "-D"; "/nonexistent"])
  = Exited 1
  /\ stderr (snd (run kernel_no_binary
                      ["new-network-namespace"; "-D"; "/nonexistent"]))
     = debug_args_text
         (global_debug
            (snd (run kernel_no_binary
                      ["new-network-namespace"; "-D"; "/nonexistent"])))
         ["/nonexistent"]
       ++ perror_line "execvp(argv[0], argv)" ENOENT.
Proof.
  apply (exec_failure_diagnostic
           kernel_no_binary ["new-network-namespace"; "-D"; "/nonexistent"]
           "/nonexistent" ["/nonexistent"] ENOENT).
  vm_compute. do 14 right. left. reflexivity.
Defined.

(** ** Exit statuses *)

(** C2 does not hold as stated: when the namespace request is refused the
    status is 1, the one of usage and exec errors, not 255. *)
Lemma namespace_failure_exits_1 :
  let r := run kernel_no_userns ["new-network-namespace"; "true"] in
  fst r = Exited 1
  /\ failing_stage (trace (snd r)) = StNamespace
  /\ trace (snd r)
     = [EvGetuid 1000; EvGetgid 100; EvUnshare unshare_flags (Err EPERM)]
  /\ exit_status 1 <> exit_status (-1).
Proof. vm_compute. repeat split; (reflexivity || discriminate). Qed.

(** C2, amended. A run that does not end in the replaced process image
    ends on a failed call (or on a usage error, before any call), with a
    message on standard error and an exit status fixed by the stage of
    that call: 255 for the group-override write, 1 for usage errors, the
    namespace request, the mapping writes, the credential elevation and
    exec. *)
Theorem exit_status_by_stage (k : Kernel) (argv : list string) :
  let r := run k argv in
  (exists (file : string) (av : list string), fst r = Replaced file av)
  \/ (fst r = Exited (stage_status (failing_stage (trace (snd r))))
      /\ ended_on_failure (trace (snd r)) = true
      /\ stderr (snd r) <> EmptyString).
Proof.
  cbv zeta. pattern (run k argv). apply run_cases.
  - intros fmt va s _ Ht Herr _. right. cbn [fst snd]. rewrite Ht, Herr.
    repeat split. apply usage_text_nonempty.
  - intros dbg pre cmd rest _. launch_paths.
    all: spell_writes.
    all: first [ left; eexists; eexists; reflexivity | right ].
    all: conjuncts; try reflexivity.
    all: apply append_nonempty, perror_line_nonempty.
Qed.

(** ** The pseudo-file writes of a successful setup *)

Lemma int_of_uid_small (u : Z) : 0 <= u < 2 ^ 31 -> int_of_uid u = u.
Proof.
  intros H. unfold int_of_uid. cbv zeta.
  rewrite Z.mod_small by lia.
  destruct (Z.ltb_spec u (2 ^ 31)); lia.
Qed.

(** C6 does not hold as stated: on a kernel without the group-override
    control file the setup succeeds and the command is executed, yet only
    two texts are written, the two mapping lines; the open of the control
    file fails and [deny] is never written. *)
Lemma old_kernel_writes_two_files :
  let r := run kernel_old ["new-network-namespace"; "true"] in
  fst r = Replaced "true" ["true"]
  /\ opened (trace (snd r)) = [setgroups_file; uid_map_file; gid_map_file]
  /\ written (trace (snd r))
     = [(uid_map_file, "0 1000 1" ++ nl); (gid_map_file, "0 100 1" ++ nl)]
  /\ In (EvFopen setgroups_file (Err ENOENT)) (trace (snd r)).
Proof.
  vm_compute. repeat split; try reflexivity.
  do 3 right. left. reflexivity.
Qed.

(** C6, amended. In every run that reaches exec, with caller ids that fit
    the [int] the code keeps them in, exactly three pseudo-files were
    opened for writing, in this order: the group-override control file,
    the UID-mapping file, the GID-mapping file; and the texts written are,
    in order, [deny] to the control file when it could be opened, then the
    line [0 <uid> 1] to the UID-mapping file and the line [0 <gid> 1] to
    the GID-mapping file. *)
Theorem setup_write_requests (k : Kernel) (argv : list string)
        (file : string) (av : list string) (res : result) :
  0 <= k_getuid k < 2 ^ 31 ->
  0 <= k_getgid k < 2 ^ 31 ->
  In (EvExecvp file av res) (trace (snd (run k argv))) ->
  opened (trace (snd (run k argv)))
  = [setgroups_file; uid_map_file; gid_map_file]
  /\ written (trace (snd (run k argv)))
     = app (match k_fopen k setgroups_file with
            | Ok => [(setgroups_file, "deny")]
            | Err _ => []
            end)
           [(uid_map_file, "0 " ++ show_int (k_getuid k) ++ " 1" ++ nl);
            (gid_map_file, "0 " ++ show_int (k_getgid k) ++ " 1" ++ nl)].
Proof.
  intros Huid Hgid. pattern (run k argv). apply run_cases.
  - intros fmt va s _ Ht _ _ H. cbn [snd] in H. rewrite Ht in H. contradiction.
  - intros dbg pre cmd rest _. launch_paths.
    all: spell_writes.
    all: intros H; find_event H.
    all: rewrite !int_of_uid_small by assumption.
    all: match goal with
         | Ho : k_fopen _ setgroups_file = _ |- _ => rewrite Ho
         end.
    all: split; reflexivity.
Qed.

Lemma setup_write_requests_witness :
  opened (trace (snd (run kernel_fine ["new-network-namespace"; "true"])))
  = [setgroups_file; uid_map_file; gid_map_file]
  /\ written (trace (snd (run kernel_fine ["new-network-namespace"; "true"])))
     = app (match k_fopen kernel_fine setgroups_file with
            | Ok => [(setgroups_file, "deny")]
            | Err _ => []
            end)
           [(uid_map_file, "0 " ++ show_int (k_getuid kernel_fine) ++ " 1" ++ nl);
            (gid_map_file, "0 " ++ show_int (k_getgid kernel_fine) ++ " 1" ++ nl)].
Proof.
  apply (setup_write_requests kernel_fine ["new-network-namespace"; "true"]
                              "true" ["true"] Ok).
  - vm_compute. split; [discriminate|reflexivity].
  - vm_compute. split; [discriminate|reflexivity].
  - vm_compute. do 14 right. left. reflexivity.
Defined.

(** ** The tolerated absence of the control file *)

Lemma write_absent_setgroups (k : Kernel) (text : string) :
  write_result (setgroups_absent k) setgroups_file text = Err ENOENT.
Proof. reflexivity. Qed.

Lemma write_writable_setgroups (k : Kernel) (text : string) :
  write_result (setgroups_writable k) setgroups_file text = Ok.
Proof. reflexivity. Qed.

Lemma write_absent_uid_map (k : Kernel) (text : string) :
  write_result (setgroups_absent k) uid_map_file text
  = write_result k uid_map_file text.
Proof. reflexivity. Qed.

Lemma write_absent_gid_map (k : Kernel) (text : string) :
  write_result (setgroups_absent k) gid_map_file text
  = write_result k gid_map_file text.
Proof. reflexivity. Qed.

Lemma write_writable_uid_map (k : Kernel) (text : string) :
  write_result (setgroups_writable k) uid_map_file text
  = write_result k uid_map_file text.
Proof. reflexivity. Qed.

Lemma write_writable_gid_map (k : Kernel) (text : string) :
  write_result (setgroups_writable k) gid_map_file text
  = write_result k gid_map_file text.
Proof. reflexivity. Qed.

Ltac same_kernel :=
  rewrite ?write_absent_setgroups, ?write_writable_setgroups,
    ?write_absent_uid_map, ?write_absent_gid_map,
    ?write_writable_uid_map, ?write_writable_gid_map, ?Z.eqb_refl;
  cbn [setgroups_absent setgroups_writable k_getuid k_getgid k_unshare
       k_setresuid k_setresgid k_execvp];
  tidy.

Lemma launch_absent_writable (k : Kernel) (opt : Options) (s : State) :
  observable (launch (setgroups_absent k) opt s)
  = observable (launch (setgroups_writable k) opt s).
Proof.
  destruct opt as [[|cmd rest]].
  all: unfold launch, SetupUserNamespace, SpawnCommand, unshare, setresuid,
         setresgid; cbv zeta.
  all: repeat (exec; same_kernel; try case_step).
  all: unfold bind, die, ret; tidy.
  all: reflexivity.
Qed.

(** C8. Two runs on the same arguments, against kernels that differ only
    in that one lacks the group-override control file and the other has
    it writable, end the same way and print the same text. *)
Theorem tolerated_absence_unobservable (k : Kernel) (argv : list string) :
  observable (run (setgroups_absent k) argv)
  = observable (run (setgroups_writable k) argv).
Proof.
  unfold run. rewrite !main_launch. unfold bind.
  destruct (ParseCommandLine argv initial_state) as [[opt| | | |] s];
    try reflexivity.
  apply launch_absent_writable.
Qed.

(** ** Command lines without a command *)

Lemma scan_cluster_all_D (cs : string) (i : nat) (dbg : bool)
      (next : scan_result) :
  all_D cs = true -> scan_cluster cs i dbg next = next.
Proof.
  revert dbg. induction cs as [|c cs IH]; intros dbg H; simpl in *.
  - reflexivity.
  - apply andb_true_iff in H as [Hc Hcs]. rewrite Hc. now apply IH.
Qed.





(** * Further properties of the code *)

(** ** Usage and the option loop *)

(** X1. [Usage] never returns: whatever the state, it appends to standard
    error the formatted message, the banner with [argv[0]], every token of
    [argv] after [provided:] and the help lines, issues no call, leaves
    errno alone and exits with status 1. *)
Theorem Usage_never_returns (argv : list string) (fmt : string)
        (va : list Arg) (s : State) :
  fst (Usage argv fmt va s) = Exited 1
  /\ stderr (snd (Usage argv fmt va s))
     = stderr s ++ format fmt va ++ usage_head ++ argv0 argv ++ usage_synopsis
       ++ "  provided:" ++ provided_text argv ++ usage_tail
  /\ trace (snd (Usage argv fmt va s)) = trace s
  /\ errno (snd (Usage argv fmt va s)) = errno s.
Proof. rewrite Usage_exits. repeat split. Qed.

(** X2. From a fresh getopt, [ParseCommandLine] always comes to an end:
    either it returns, having printed nothing, issued no call and left
    errno alone, or it exits with status 1 after a usage message, again
    without a call.  The loop around getopt never needs more steps than
    [argv] has characters. *)
Theorem ParseCommandLine_terminates (argv : list string) (s : State) :
  nextchar s = EmptyString ->
  (exists (opt : Options) (s' : State),
      ParseCommandLine argv s = (Returned opt, s')
      /\ stderr s' = stderr s /\ trace s' = trace s /\ errno s' = errno s)
  \/ (exists (s' : State) (fmt : string) (va : list Arg),
         ParseCommandLine argv s = (Exited 1, s')
         /\ stderr s' = stderr s ++ usage_text argv fmt va
         /\ trace s' = trace s /\ errno s' = errno s).
Proof.
  intros Hnc. rewrite ParseCommandLine_spec by exact Hnc.
  unfold parse_result.
  destruct (scan_state argv s) as [i dbg|c i rest dbg].
  - cbv zeta. destruct (List.length argv <=? i)%nat.
    + right. eexists; eexists; eexists. repeat split.
    + left. eexists; eexists. repeat split.
  - right. eexists; eexists; eexists. repeat split.
Qed.

Lemma ParseCommandLine_terminates_witness :
  (exists (opt : Options) (s' : State),
      ParseCommandLine ["new-network-namespace"; "-D"; "id"] initial_state
      = (Returned opt, s')
      /\ stderr s' = stderr initial_state /\ trace s' = trace initial_state
      /\ errno s' = errno initial_state)
  \/ (exists (s' : State) (fmt : string) (va : list Arg),
         ParseCommandLine ["new-network-namespace"; "-D"; "id"] initial_state
         = (Exited 1, s')
         /\ stderr s'
            = stderr initial_state
              ++ usage_text ["new-network-namespace"; "-D"; "id"] fmt va
         /\ trace s' = trace initial_state /\ errno s' = errno initial_state).
Proof.
  apply (ParseCommandLine_terminates
           ["new-network-namespace"; "-D"; "id"] initial_state).
  reflexivity.
Defined.

(** X3. A run that ends before its first call is a usage error whose
    first line comes from one of two messages, [No command specified] or
    [Unrecognized argument]; the message about a flag that requires an
    argument is never printed, since the option string gives no option an
    argument. *)
Theorem usage_error_kinds (k : Kernel) (argv : list string) :
  trace (snd (run k argv)) = [] ->
  fst (run k argv) = Exited 1
  /\ exists (fmt : string) (va : list Arg),
       (fmt = "No command specified"
        \/ fmt = "Unrecognized argument: -%c (%d)")
       /\ stderr (snd (run k argv)) = usage_text argv fmt va.
Proof.
  pattern (run k argv). apply run_cases.
  - intros fmt va s _ _ Herr Hfmt _. split; [reflexivity|].
    exists fmt, va. split; assumption.
  - intros dbg pre cmd rest _. launch_paths.
    all: spell_writes.
    all: discriminate.
Qed.

Lemma usage_error_kinds_witness :
  fst (run kernel_fine ["new-network-namespace"; "-Z"]) = Exited 1
  /\ exists (fmt : string) (va : list Arg),
       (fmt = "No command specified"
        \/ fmt = "Unrecognized argument: -%c (%d)")
       /\ stderr (snd (run kernel_fine ["new-network-namespace"; "-Z"]))
          = usage_text ["new-network-namespace"; "-Z"] fmt va.
Proof.
  apply (usage_error_kinds kernel_fine ["new-network-namespace"; "-Z"]).
  reflexivity.
Defined.

(** ** Where the options end *)

Lemma debug_flag_is_not_dashes (a : string) :
  is_debug_flag a = true -> String.eqb a "--" = false.
Proof.
  destruct a as [|dash [|c cs]]; try discriminate.
  unfold is_debug_flag. intros H.
  apply andb_true_iff in H as [_ H]. simpl in H.
  apply andb_true_iff in H as [Hc _].
  apply Ascii.eqb_eq in Hc. subst c.
  destruct cs; reflexivity || (simpl; destruct (Ascii.eqb dash "-"); reflexivity).
Qed.

Lemma scan_args_flags (flags tail : list string) (i : nat) (dbg : bool) :
  forallb is_debug_flag flags = true ->
  scan_args (flags ++ tail) i dbg
  = scan_args tail (i + List.length flags) (dbg || negb (is_nil flags)).
Proof.
  revert i dbg. induction flags as [|a flags IH]; intros i dbg H.
  - simpl. now rewrite Nat.add_0_r, orb_false_r.
  - simpl in H. apply andb_true_iff in H as [Ha Hflags].
    cbn [app scan_args]. rewrite (debug_flag_is_not_dashes a Ha).
    destruct a as [|dash [|c cs]]; try discriminate.
    unfold is_debug_flag in Ha. apply andb_true_iff in Ha as [Hdash HD].
    rewrite Hdash, scan_cluster_all_D by exact HD.
    rewrite IH by exact Hflags. cbn [List.length is_nil negb].
    rewrite Nat.add_succ_r, orb_true_r. simpl.
    destruct flags; reflexivity.
Qed.

Lemma skipn_past_flags (prog : string) (flags tail : list string) :
  skipn (1 + List.length flags) (prog :: flags ++ tail) = tail.
Proof.
  change (skipn (1 + List.length flags) (prog :: flags ++ tail))
    with (skipn (List.length flags) (flags ++ tail)).
  induction flags as [|a flags IH]; [reflexivity|exact IH].
Qed.

Lemma skipn_past_marker (prog : string) (flags : list string)
      (marker : string) (tail : list string) :
  skipn (2 + List.length flags) (prog :: flags ++ marker :: tail) = tail.
Proof.
  change (skipn (2 + List.length flags) (prog :: flags ++ marker :: tail))
    with (skipn (1 + List.length flags) (flags ++ marker :: tail)).
  induction flags as [|a flags IH]; [reflexivity|exact IH].
Qed.

Lemma parse_after_scan (argv : list string) (i : nat) (dbg : bool) :
  scan_args (skipn 1 argv) 1 false = ScanDone i dbg ->
  (i < List.length argv)%nat ->
  ParseCommandLine argv initial_state
  = (Returned {| args := skipn i argv |}, parsed_state dbg i).
Proof.
  intros Hscan Hlt. rewrite ParseCommandLine_spec by reflexivity.
  unfold parse_result, scan_state.
  cbn [nextchar optind global_debug initial_state]. rewrite Hscan. cbv zeta.
  destruct (Nat.leb_spec (List.length argv) i); [lia|reflexivity].
Qed.

(** X4. The option scan stops at the first token that is not an option:
    after the program name and any number of [-D] tokens, a token that
    does not start with a dash (or is a lone dash) is the command;
    [ParseCommandLine] returns, [Options.args] is that token and
    everything after it, dashes or not, untouched, [optind] is its index,
    and the debug flag is set exactly when a [-D] token came before. *)
Theorem command_after_flags (prog : string) (flags : list string)
        (cmd : string) (rest : list string) :
  forallb is_debug_flag flags = true ->
  is_option_token cmd = false ->
  exists s' : State,
    ParseCommandLine (prog :: flags ++ cmd :: rest) initial_state
    = (Returned {| args := cmd :: rest |}, s')
    /\ global_debug s' = negb (is_nil flags)
    /\ optind s' = (1 + List.length flags)%nat.
Proof.
  intros Hflags Hcmd.
  exists (parsed_state (negb (is_nil flags)) (1 + List.length flags)).
  split; [|split; reflexivity].
  rewrite (parse_after_scan _ (1 + List.length flags) (negb (is_nil flags))).
  - now rewrite skipn_past_flags.
  - change (skipn 1 (prog :: flags ++ cmd :: rest)) with (flags ++ cmd :: rest)%list.
    rewrite scan_args_flags by exact Hflags. cbn [scan_args orb].
    destruct cmd as [|dash [|c cs]]; try reflexivity.
    + destruct (String.eqb (String dash EmptyString) "--") eqn:Hdd;
        [|reflexivity].
      apply String.eqb_eq in Hdd. discriminate Hdd.
    + unfold is_option_token in Hcmd.
      destruct (String.eqb (String dash (String c cs)) "--") eqn:Hdd.
      * apply String.eqb_eq in Hdd. inversion Hdd; subst. discriminate Hcmd.
      * now rewrite Hcmd.
  - cbn [List.length]. rewrite length_app. cbn [List.length]. lia.
Qed.

Lemma command_after_flags_witness :
  exists s' : State,
    ParseCommandLine
      ("new-network-namespace" :: ["-D"; "-DD"] ++ "ls" :: ["-D"; "--"; "-l"])
      initial_state
    = (Returned {| args := "ls" :: ["-D"; "--"; "-l"] |}, s')
    /\ global_debug s' = negb (is_nil ["-D"; "-DD"])
    /\ optind s' = (1 + List.length ["-D"; "-DD"])%nat.
Proof.
  apply (command_after_flags "new-network-namespace" ["-D"; "-DD"] "ls"
                             ["-D"; "--"; "-l"]); reflexivity.
Defined.

(** X5. After [--] the next token is the command whatever it looks like:
    with the program name, any number of [-D] tokens, [--] and at least
    one more token, [ParseCommandLine] returns, [Options.args] is
    everything after the [--], even when it starts with a dash, [optind]
    is the index after the [--], and the debug flag is set exactly when a
    [-D] token came before. *)
Theorem command_after_double_dash (prog : string) (flags : list string)
        (cmd : string) (rest : list string) :
  forallb is_debug_flag flags = true ->
  exists s' : State,
    ParseCommandLine (prog :: flags ++ "--" :: cmd :: rest) initial_state
    = (Returned {| args := cmd :: rest |}, s')
    /\ global_debug s' = negb (is_nil flags)
    /\ optind s' = (2 + List.length flags)%nat.
Proof.
  intros Hflags.
  exists (parsed_state (negb (is_nil flags)) (2 + List.length flags)).
  split; [|split; reflexivity].
  rewrite (parse_after_scan _ (2 + List.length flags) (negb (is_nil flags))).
  - now rewrite skipn_past_marker.
  - change (skipn 1 (prog :: flags ++ "--" :: cmd :: rest))
      with (flags ++ "--" :: cmd :: rest)%list.
    rewrite scan_args_flags by exact Hflags. cbn [scan_args orb].
    rewrite String.eqb_refl. reflexivity.
  - cbn [List.length]. rewrite length_app. cbn [List.length]. lia.
Qed.

Lemma command_after_double_dash_witness :
  exists s' : State,
    ParseCommandLine
      ("new-network-namespace" :: ["-D"] ++ "--" :: "-odd-name" :: ["x"])
      initial_state
    = (Returned {| args := "-odd-name" :: ["x"] |}, s')
    /\ global_debug s' = negb (is_nil ["-D"])
    /\ optind s' = (2 + List.length ["-D"])%nat.
Proof.
  apply (command_after_double_dash "new-network-namespace" ["-D"] "-odd-name"
                                   ["x"]); reflexivity.
Defined.

Lemma scan_cluster_bad (ds : string) (c : ascii) (cs : string) (i : nat)
      (dbg : bool) (next : scan_result) :
  all_D ds = true ->
  Ascii.eqb c "D" = false ->
  scan_cluster (ds ++ String c cs) i dbg next
  = ScanBad c (match cs with
               | EmptyString => S i
               | String _ _ => i
               end) cs
            (dbg || negb (String.eqb ds EmptyString)).
Proof.
  intros HD Hc. revert dbg.
  induction ds as [|d ds IH]; intros dbg; simpl.
  - rewrite Hc. now rewrite orb_false_r.
  - simpl in HD. apply andb_true_iff in HD as [Hd HD].
    rewrite Hd, IH by exact HD. now rewrite orb_true_r.
Qed.

(** X6. An option token with a character other than [D] makes the run a
    usage error: after the program name and any number of [-D] tokens, a
    token [-D...Dc...] whose first character that is not [D] is [c] ends
    the run with status 1 before any call, and the first line names [c]
    and getopt's index, which already points past the token when [c] is
    its last character. *)
Theorem unrecognized_flag_usage (k : Kernel) (prog : string)
        (flags : list string) (ds : string) (c : ascii) (cs : string)
        (rest : list string) :
  forallb is_debug_flag flags = true ->
  all_D ds = true ->
  Ascii.eqb c "D" = false ->
  String.eqb (String "-" (ds ++ String c cs)) "--" = false ->
  fst (run k (prog :: flags ++ String "-" (ds ++ String c cs) :: rest))
  = Exited 1
  /\ stderr (snd (run k (prog :: flags ++ String "-" (ds ++ String c cs) :: rest)))
     = usage_text (prog :: flags ++ String "-" (ds ++ String c cs) :: rest)
         "Unrecognized argument: -%c (%d)"
         [ArgChar c;
          ArgInt (Z.of_nat (match cs with
                            | EmptyString => S (1 + List.length flags)
                            | String _ _ => 1 + List.length flags
                            end))]
  /\ trace (snd (run k (prog :: flags ++ String "-" (ds ++ String c cs) :: rest)))
     = [].
Proof.
  intros Hflags HD Hc Hdd.
  unfold run. rewrite main_launch. unfold bind.
  rewrite ParseCommandLine_spec by reflexivity.
  unfold parse_result, scan_state.
  cbn [nextchar optind global_debug initial_state].
  change (skipn 1 (prog :: flags ++ String "-" (ds ++ String c cs) :: rest))
    with (flags ++ String "-" (ds ++ String c cs) :: rest)%list.
  rewrite scan_args_flags by exact Hflags. cbn [scan_args]. rewrite Hdd.
  assert (Hscan : forall i dbg next,
             match ds ++ String c cs with
             | EmptyString => ScanDone i dbg
             | String c1 cs1 =>
                 if Ascii.eqb "-" "-"
                 then scan_cluster (String c1 cs1) i dbg next
                 else ScanDone i dbg
             end
             = scan_cluster (ds ++ String c cs) i dbg next).
  { intros i dbg next. destruct ds; reflexivity. }
  rewrite Hscan, scan_cluster_bad by assumption.
  repeat split.
Qed.

Lemma unrecognized_flag_usage_witness :
  fst (run kernel_fine
           ("new-network-namespace" :: ["-D"]
              ++ String "-" ("D" ++ String "Z" "x") :: ["--"; "ls"]))
  = Exited 1
  /\ stderr (snd (run kernel_fine
                      ("new-network-namespace" :: ["-D"]
                         ++ String "-" ("D" ++ String "Z" "x") :: ["--"; "ls"])))
     = usage_text ("new-network-namespace" :: ["-D"]
                     ++ String "-" ("D" ++ String "Z" "x") :: ["--"; "ls"])
         "Unrecognized argument: -%c (%d)"
         [ArgChar "Z";
          ArgInt (Z.of_nat (match "x" with
                            | EmptyString => S (1 + List.length ["-D"])
                            | String _ _ => 1 + List.length ["-D"]
                            end))]
  /\ trace (snd (run kernel_fine
                     ("new-network-namespace" :: ["-D"]
                        ++ String "-" ("D" ++ String "Z" "x") :: ["--"; "ls"])))
     = [].
Proof.
  apply (unrecognized_flag_usage kernel_fine "new-network-namespace" ["-D"]
                                 "D" "Z" "x" ["--"; "ls"]); reflexivity.
Defined.

(** ** WriteFile *)

Lemma bind_ret_r {A : Type} (m : M A) (s : State) : bind m ret s = m s.
Proof. unfold bind, ret. destruct (m s) as [[a| | | |] s']; reflexivity. Qed.

(** X7. [WriteFile] opens, writes and closes, stopping at the first call
    that fails: it returns 0 when all three succeed and -1 otherwise, with
    errno set by the call that failed; it prints nothing; it does not
    write to a file it could not open, and it does not close the stream
    after a write that failed. *)
Theorem WriteFile_result (k : Kernel) (file fmt : string) (va : list Arg)
        (s : State) :
  WriteFile k file fmt va s
  = (Returned (status_of (write_result k file (format fmt va))),
     log (write_events k file (format fmt va))
         (settle (write_result k file (format fmt va)) s)).
Proof.
  rewrite <- bind_ret_r. rewrite bind_WriteFile. reflexivity.
Qed.

(** ** What reaches exec, and what a run shows *)

(** X8. The vector handed to [execvp] is a suffix of the command line,
    and the file searched for is its first token. *)
Theorem exec_vector_is_suffix (k : Kernel) (argv : list string)
        (file : string) (av : list string) (res : result) :
  In (EvExecvp file av res) (trace (snd (run k argv))) ->
  exists (pre rest : list string),
    argv = (pre ++ av)%list /\ av = file :: rest.
Proof.
  pattern (run k argv). apply run_cases.
  - intros fmt va s _ Ht _ _ H. cbn [snd] in H. rewrite Ht in H. contradiction.
  - intros dbg pre cmd rest Hargv. launch_paths.
    all: spell_writes.
    all: intros H; find_event H.
    all: injection H as <- <- <-.
    all: exists pre, rest; split; [exact Hargv|reflexivity].
Qed.

Lemma exec_vector_is_suffix_witness :
  exists (pre rest : list string),
    ["new-network-namespace"; "-D"; "--"; "id"; "-u"] = (pre ++ ["id"; "-u"])%list
    /\ ["id"; "-u"] = "id" :: rest.
Proof.
  apply (exec_vector_is_suffix
           kernel_fine ["new-network-namespace"; "-D"; "--"; "id"; "-u"]
           "id" ["id"; "-u"] Ok).
  vm_compute. do 14 right. left. reflexivity.
Defined.

(** X10. A run that ends in the replaced process image has printed
    nothing but the argument lines of [-D]: without [-D] the launcher is
    silent on success. *)
Theorem silent_success (k : Kernel) (argv : list string)
        (file : string) (av : list string) :
  fst (run k argv) = Replaced file av ->
  stderr (snd (run k argv))
  = debug_args_text (global_debug (snd (run k argv))) av
  /\ (global_debug (snd (run k argv)) = false ->
      stderr (snd (run k argv)) = EmptyString).
Proof.
  pattern (run k argv). apply run_cases.
  - intros fmt va s _ _ _ _ H. discriminate H.
  - intros dbg pre cmd rest _. launch_paths.
    all: intros H; try discriminate H.
    all: injection H as <- <-.
    all: split; [reflexivity|intros ->; reflexivity].
Qed.

Lemma silent_success_witness :
  stderr (snd (run kernel_fine ["new-network-namespace"; "id"]))
  = debug_args_text
      (global_debug (snd (run kernel_fine ["new-network-namespace"; "id"])))
      ["id"]
  /\ (global_debug (snd (run kernel_fine ["new-network-namespace"; "id"])) = false ->
      stderr (snd (run kernel_fine ["new-network-namespace"; "id"])) = EmptyString).
Proof.
  apply (silent_success kernel_fine ["new-network-namespace"; "id"] "id" ["id"]).
  reflexivity.
Defined.

(** X11. The caller's ids are read before the namespaces are requested:
    a run that issues any call starts with [getuid], [getgid] and then
    the one [unshare]; so the ids written to the mapping files are those
    of the caller outside the new user namespace. *)
Theorem ids_read_before_unshare (k : Kernel) (argv : list string) :
  trace (snd (run k argv)) = []
  \/ exists (res : result) (rest : list Event),
       trace (snd (run k argv))
       = EvGetuid (k_getuid k) :: EvGetgid (k_getgid k)
           :: EvUnshare unshare_flags res :: rest
       /\ ~ In (EvGetuid (k_getuid k)) rest
       /\ ~ In (EvGetgid (k_getgid k)) rest.
Proof.
  pattern (run k argv). apply run_cases.
  - intros fmt va s _ Ht _ _. now left.
  - intros dbg pre cmd rest _. launch_paths.
    all: spell_writes.
    all: right; eexists; eexists; split; [reflexivity|].
    all: split; intros H; find_event H.
Qed.

(** ** The order of the calls inside the Identity Remapper *)

Lemma remapper_ordered_from_sound (t before : list Event) :
  remapper_ordered_from before t = true ->
  forall (pre : list Event) (ev : Event) (post : list Event),
    t = (pre ++ ev :: post)%list ->
    remapper_ordered_at (before ++ pre) ev = true.
Proof.
  revert before. induction t as [|x t IH]; intros before H pre ev post Ht.
  - destruct pre; discriminate.
  - simpl in H. apply andb_true_iff in H as [Hx Hrest].
    destruct pre as [|y pre]; simpl in Ht; injection Ht as <- ->.
    + now rewrite app_nil_r.
    + specialize (IH _ Hrest pre ev post eq_refl).
      now rewrite <- app_assoc in IH.
Qed.

Lemma run_remapper_ordered (k : Kernel) (argv : list string) :
  remapper_ordered_from [] (trace (snd (run k argv))) = true.
Proof.
  apply run_cases.
  - intros fmt va s _ Ht _ _. simpl. now rewrite Ht.
  - intros dbg pre cmd rest _. launch_paths.
    all: spell_writes.
    all: reflexivity.
Qed.

(** X12. Inside the Identity Remapper the calls keep their order in every
    run: a call on a mapping file comes only after the group-override
    control file was tried, a call on the GID-mapping file only after the
    UID-mapping file was written and closed without error, [setresgid]
    only after [setresuid] succeeded, and both elevation calls ask for id
    0 as real, effective and saved id. *)
Theorem remapper_call_order (k : Kernel) (argv : list string)
        (pre : list Event) (ev : Event) (post : list Event) :
  trace (snd (run k argv)) = (pre ++ ev :: post)%list ->
  (is_mapping_write ev = true -> existsb (touches setgroups_file) pre = true)
  /\ (touches gid_map_file ev = true ->
      existsb (closed_ok uid_map_file) pre = true)
  /\ (is_setresgid ev = true -> existsb setresuid_succeeded pre = true)
  /\ asks_for_root ev = true.
Proof.
  intros Ht.
  pose proof (remapper_ordered_from_sound _ _ (run_remapper_ordered k argv)
                                          pre ev post Ht) as H.
  simpl in H. unfold remapper_ordered_at in H.
  apply andb_true_iff in H as [H Hroot].
  apply andb_true_iff in H as [H Hgid].
  apply andb_true_iff in H as [Hmap Hgm].
  split; [|split; [|split]].
  - intros Hev. now rewrite Hev in Hmap.
  - intros Hev. now rewrite Hev in Hgm.
  - intros Hev. now rewrite Hev in Hgid.
  - exact Hroot.
Qed.

Lemma remapper_call_order_witness :
  (is_mapping_write (EvSetresgid 0 0 0 Ok) = true ->
   existsb (touches setgroups_file)
     [EvGetuid 1000; EvGetgid 100; EvUnshare unshare_flags Ok;
      EvFopen setgroups_file (Err ENOENT);
      EvFopen uid_map_file Ok; EvVfprintf uid_map_file (map_line 1000) Ok;
      EvFclose uid_map_file Ok;
      EvFopen gid_map_file Ok; EvVfprintf gid_map_file (map_line 100) Ok;
      EvFclose gid_map_file Ok; EvSetresuid 0 0 0 Ok] = true)
  /\ (touches gid_map_file (EvSetresgid 0 0 0 Ok) = true ->
      existsb (closed_ok uid_map_file)
        [EvGetuid 1000; EvGetgid 100; EvUnshare unshare_flags Ok;
         EvFopen setgroups_file (Err ENOENT);
         EvFopen uid_map_file Ok; EvVfprintf uid_map_file (map_line 1000) Ok;
         EvFclose uid_map_file Ok;
         EvFopen gid_map_file Ok; EvVfprintf gid_map_file (map_line 100) Ok;
         EvFclose gid_map_file Ok; EvSetresuid 0 0 0 Ok] = true)
  /\ (is_setresgid (EvSetresgid 0 0 0 Ok) = true ->
      existsb setresuid_succeeded
        [EvGetuid 1000; EvGetgid 100; EvUnshare unshare_flags Ok;
         EvFopen setgroups_file (Err ENOENT);
         EvFopen uid_map_file Ok; EvVfprintf uid_map_file (map_line 1000) Ok;
         EvFclose uid_map_file Ok;
         EvFopen gid_map_file Ok; EvVfprintf gid_map_file (map_line 100) Ok;
         EvFclose gid_map_file Ok; EvSetresuid 0 0 0 Ok] = true)
  /\ asks_for_root (EvSetresgid 0 0 0 Ok) = true.
Proof.
  apply (remapper_call_order kernel_old ["new-network-namespace"; "true"]
           _ _ [EvExecvp "true" ["true"] Ok]).
  vm_compute. reflexivity.
Defined.

(** ** The debug flag *)

Lemma launch_behaviour_state (k : Kernel) (opt : Options) (s1 s2 : State) :
  trace s1 = trace s2 ->
  behaviour (launch k opt s1) = behaviour (launch k opt s2).
Proof.
  intros Ht. destruct opt as [[|cmd rest]].
  all: unfold launch, SetupUserNamespace, SpawnCommand, unshare, setresuid,
         setresgid; cbv zeta.
  all: repeat (exec; try case_step).
  all: unfold bind, die, ret, behaviour; tidy.
  all: rewrite Ht; reflexivity.
Qed.

Lemma scan_cluster_shift (cs : string) (i : nat) (dbg dbg' : bool)
      (next next' : scan_result) :
  scan_shifted next next' ->
  scan_shifted (scan_cluster cs i dbg next) (scan_cluster cs (S i) dbg' next').
Proof.
  intros Hnext. revert dbg dbg'.
  induction cs as [|c cs IH]; intros dbg dbg'; simpl; [exact Hnext|].
  destruct (Ascii.eqb c "D"); [apply IH|].
  destruct cs; repeat split.
Qed.

Lemma scan_args_shift (tail : list string) (i : nat) (dbg dbg' : bool) :
  scan_shifted (scan_args tail i dbg) (scan_args tail (S i) dbg').
Proof.
  revert i dbg dbg'. induction tail as [|a tail IH]; intros i dbg dbg'.
  - reflexivity.
  - cbn [scan_args]. destruct (String.eqb a "--"); [reflexivity|].
    destruct a as [|dash [|c cs]]; try reflexivity.
    destruct (Ascii.eqb dash "-"); [|reflexivity].
    apply scan_cluster_shift, IH.
Qed.

Lemma scan_cluster_from (cs : string) (i : nat) (dbg : bool)
      (next : scan_result) :
  scan_from i next -> scan_from i (scan_cluster cs i dbg next).
Proof.
  intros Hnext. revert dbg.
  induction cs as [|c cs IH]; intros dbg; simpl; [exact Hnext|].
  destruct (Ascii.eqb c "D"); [apply IH|exact I].
Qed.

Lemma scan_args_from (tail : list string) (i : nat) (dbg : bool) :
  scan_from i (scan_args tail i dbg).
Proof.
  revert i dbg. induction tail as [|a tail IH]; intros i dbg.
  - simpl. lia.
  - cbn [scan_args]. destruct (String.eqb a "--"); [simpl; lia|].
    destruct a as [|dash [|c cs]]; try (simpl; lia).
    destruct (Ascii.eqb dash "-"); [|simpl; lia].
    apply scan_cluster_from. specialize (IH (S i) true).
    destruct (scan_args tail (S i) true); simpl in *; [lia|exact I].
Qed.

(** X9. The debug flag changes what is printed and nothing else: with
    [-D] put in front of the other arguments, a run issues the same calls
    with the same answers and ends the same way as without it. *)
Theorem debug_flag_only_prints (k : Kernel) (prog : string)
        (tail : list string) :
  behaviour (run k (prog :: "-D" :: tail)) = behaviour (run k (prog :: tail)).
Proof.
  unfold run. rewrite !main_launch. unfold bind.
  rewrite !ParseCommandLine_spec by reflexivity.
  unfold parse_result, scan_state.
  cbn [nextchar optind global_debug initial_state].
  change (skipn 1 (prog :: "-D" :: tail)) with ("-D" :: tail).
  change (skipn 1 (prog :: tail)) with tail.
  change (scan_args ("-D" :: tail) 1 false) with (scan_args tail 2 true).
  pose proof (scan_args_shift tail 1 false true) as Hshift.
  pose proof (scan_args_from tail 1 false) as Hfrom.
  destruct (scan_args tail 1 false) as [j d|c j rs d];
    destruct (scan_args tail 2 true) as [j' d'|c' j' rs' d'];
    simpl in Hshift; try contradiction.
  - subst j'. cbv zeta. simpl in Hfrom.
    change (List.length (prog :: "-D" :: tail) <=? S j)%nat
      with (List.length (prog :: tail) <=? j)%nat.
    destruct (List.length (prog :: tail) <=? j)%nat; [reflexivity|].
    destruct j as [|j0]; [lia|].
    change (skipn (S (S j0)) (prog :: "-D" :: tail)) with (skipn j0 tail).
    change (skipn (S j0) (prog :: tail)) with (skipn j0 tail).
    apply launch_behaviour_state. reflexivity.
  - reflexivity.
Qed.

(** ** When nothing fails *)

(** X14. The launcher does not fail on its own: once the command line
    holds a command, if the namespace request, the two mapping writes,
    both elevation calls and exec succeed, and the group-override write
    succeeds or fails only because the control file is not there, the run
    ends in the image of the command, executed with the command's own
    vector. *)
Theorem run_succeeds_when_calls_succeed (k : Kernel) (argv : list string)
        (cmd : string) (rest : list string) (s0 : State) :
  ParseCommandLine argv initial_state = (Returned {| args := cmd :: rest |}, s0) ->
  k_unshare k unshare_flags = Ok ->
  (write_result k setgroups_file "deny" = Ok
   \/ write_result k setgroups_file "deny" = Err ENOENT) ->
  write_result k uid_map_file (map_line (int_of_uid (k_getuid k))) = Ok ->
  write_result k gid_map_file (map_line (int_of_uid (k_getgid k))) = Ok ->
  k_setresuid k 0 0 0 = Ok ->
  k_setresgid k 0 0 0 = Ok ->
  k_execvp k cmd (cmd :: rest) = Ok ->
  fst (run k argv) = Replaced cmd (cmd :: rest).
Proof.
  intros Hparse Hns Hsg Hum Hgm Hsu Hsgid Hexec.
  unfold run. rewrite main_launch. unfold bind. rewrite Hparse.
  launch_paths.
  all: try congruence.
  all: destruct Hsg as [Hsg|Hsg]; congruence.
Qed.

Lemma run_succeeds_when_calls_succeed_witness :
  fst (run kernel_old ["new-network-namespace"; "-D"; "--"; "id"; "-u"])
  = Replaced "id" ["id"; "-u"].
Proof.
  apply (run_succeeds_when_calls_succeed
           kernel_old ["new-network-namespace"; "-D"; "--"; "id"; "-u"]
           "id" ["-u"] (parsed_state true 3)).
  - vm_compute. reflexivity.
  - reflexivity.
  - right. reflexivity.
  - reflexivity.
  - reflexivity.
  - reflexivity.
  - reflexivity.
  - reflexivity.
Defined.

(** ** Ids beyond the range of [int] *)

Local Transparent show_int.

Lemma show_int_negative (p : positive) :
  show_int (Z.neg p) = "-" ++ show_int (Z.pos p).
Proof. reflexivity. Qed.

Local Opaque show_int.

Lemma map_line_high_id (u : Z) :
  2 ^ 31 <= u < 2 ^ 32 ->
  map_line (int_of_uid u) = "0 -" ++ show_int (2 ^ 32 - u) ++ " 1" ++ nl.
Proof.
  intros H.
  assert (Hint : int_of_uid u = u - 2 ^ 32).
  { unfold int_of_uid. cbv zeta. rewrite Z.mod_small by lia.
    destruct (Z.ltb_spec u (2 ^ 31)); lia. }
  rewrite Hint. unfold map_line.
  destruct (u - 2 ^ 32) as [|p|p] eqn:Hneg; try lia.
  rewrite show_int_negative.
  replace (2 ^ 32 - u) with (Z.pos p) by lia.
  reflexivity.
Qed.

(** X13. A caller id of 2^31 or more does not fit the [int] that [main]
    keeps it in: in every run, the text handed to the kernel for the
    UID-mapping file (the GID-mapping file) when the caller's uid (gid)
    is that large is the line with the id wrapped to a negative number,
    [0 -<2^32 - id> 1]. *)
Theorem high_id_written_negative (k : Kernel) (argv : list string)
        (file text : string) (res : result) :
  In (EvVfprintf file text res) (trace (snd (run k argv))) ->
  (file = uid_map_file ->
   2 ^ 31 <= k_getuid k < 2 ^ 32 ->
   text = "0 -" ++ show_int (2 ^ 32 - k_getuid k) ++ " 1" ++ nl)
  /\ (file = gid_map_file ->
      2 ^ 31 <= k_getgid k < 2 ^ 32 ->
      text = "0 -" ++ show_int (2 ^ 32 - k_getgid k) ++ " 1" ++ nl).
Proof.
  pattern (run k argv). apply run_cases.
  - intros fmt va s _ Ht _ _ H. cbn [snd] in H. rewrite Ht in H. contradiction.
  - intros dbg pre cmd rest _. launch_paths.
    all: spell_writes.
    all: intros H; find_event H.
    all: injection H as <- <- <-.
    all: split; intros Hfile Hrange; try (vm_compute in Hfile; discriminate Hfile).
    all: apply map_line_high_id; exact Hrange.
Qed.

Lemma high_id_written_negative_witness :
  ("/proc/self/uid_map" = uid_map_file ->
   2 ^ 31 <= k_getuid kernel_high_uid < 2 ^ 32 ->
   "0 -2 1" ++ nl
   = "0 -" ++ show_int (2 ^ 32 - k_getuid kernel_high_uid) ++ " 1" ++ nl)
  /\ ("/proc/self/uid_map" = gid_map_file ->
      2 ^ 31 <= k_getgid kernel_high_uid < 2 ^ 32 ->
      "0 -2 1" ++ nl
      = "0 -" ++ show_int (2 ^ 32 - k_getgid kernel_high_uid) ++ " 1" ++ nl).
Proof.
  apply (high_id_written_negative
           kernel_high_uid ["new-network-namespace"; "true"]
           "/proc/self/uid_map" ("0 -2 1" ++ nl) Ok).
  vm_compute. do 7 right. left. reflexivity.
Defined.
